(** * guetzli front-end: format probes, pixel decoding, alpha blending,
      memory admission and the dispatch loop of [guetzli/guetzli.cc]. *)

From Stdlib Require Import String Ascii.
From Stdlib Require Import ZArith Lia Bool List.
From Stdlib Require Import Floats.SpecFloat.
From Stdlib Require Import QArith.
From stdpp Require Import base list.

Local Open Scope Z_scope.

(** ** Machine integers

    [uint8_t] values are integers in [0, 256); a conversion to [uint8_t]
    reduces modulo 256.  [int] is the 32-bit signed range. *)

Definition is_uint8 (z : Z) : Prop := 0 <= z < 256.

Definition to_uint8 (z : Z) : Z := z mod 256.

Definition INT_MAX : Z := 2147483647.
Definition INT_MIN : Z := -2147483648.

Definition is_int (z : Z) : Prop := INT_MIN <= z <= INT_MAX.

(** ** Constants and process-wide configuration *)

Definition kDefaultJPEGQuality : Z := 95.
Definition kBytesPerPixel : Z := 110.
Definition kLowestMemusageMB : Z := 100.
Definition kDefaultMemlimitMB : Z := 6000.

(** The globals [verbose], [quality], [memlimit_mb] and [blendOnBlack];
    [main] sets them while it parses the flags, the processors only read
    them. *)
Record Config : Type := mkConfig {
  verbose : Z;
  quality : Z;
  memlimit_mb : Z;
  blendOnBlack : bool
}.

Definition default_config : Config :=
  {| verbose := 0;
     quality := kDefaultJPEGQuality;
     memlimit_mb := kDefaultMemlimitMB;
     blendOnBlack := true |}.

Inductive ProcessResult : Type :=
| NotSupported
| ProcessFailed
| Sucess.

(** ** Alpha blending

    The operands are promoted to [int]; [/] on [int] truncates toward zero
    ([Z.quot]); the result is converted back to [uint8_t]. *)

Definition BlendOnBlack (val alpha : Z) : Z :=
  to_uint8 ((val * alpha + 128) ÷ 255).

Definition BlendOnWhite (val alpha : Z) : Z :=
  if alpha <? 1
  then to_uint8 (255 - ((val * alpha + 128) ÷ 255))
  else val.

Definition Blend (cfg : Config) (val alpha : Z) : Z :=
  if blendOnBlack cfg then BlendOnBlack val alpha else BlendOnWhite val alpha.

Definition on_white (cfg : Config) : Config :=
  {| verbose := verbose cfg;
     quality := quality cfg;
     memlimit_mb := memlimit_mb cfg;
     blendOnBlack := false |}.


(** ** Binary64 arithmetic

    [double] values are IEEE 754 binary64 numbers: [spec_float] with a
    53-bit significand and [emax = 1024]; the operations round to nearest,
    ties to even. *)

Definition prec64 : Z := 53.
Definition emax64 : Z := 1024.

(** [static_cast<double>] of an [int], and the usual arithmetic conversion
    of an [int] operand. *)
Definition double_of_int (z : Z) : spec_float :=
  binary_normalize prec64 emax64 z 0 false.

Definition double_mul : spec_float -> spec_float -> spec_float :=
  SFmul prec64 emax64.
Definition double_div : spec_float -> spec_float -> spec_float :=
  SFdiv prec64 emax64.
(** [a > b] on doubles. *)
Definition double_gt (a b : spec_float) : bool := SFltb b a.

(** ** Memory admission

    The test the three processors repeat once the dimensions are known:
    [memlimit_mb != -1 && (pixels * kBytesPerPixel / (1 << 20) > memlimit_mb
    || memlimit_mb < kLowestMemusageMB)] with
    [pixels = static_cast<double>(xsize) * ysize]. *)

Definition estimate_exceeds (xsize ysize limit : Z) : bool :=
  let pixels := double_mul (double_of_int xsize) (double_of_int ysize) in
  double_gt
    (double_div (double_mul pixels (double_of_int kBytesPerPixel))
                (double_of_int (Z.shiftl 1 20)))
    (double_of_int limit).

Definition MemlimitExceeded (cfg : Config) (xsize ysize : Z) : bool :=
  negb (memlimit_mb cfg =? -1) &&
  (estimate_exceeds xsize ysize (memlimit_mb cfg)
   || (memlimit_mb cfg <? kLowestMemusageMB)).

(** The estimate of the specification, [width * height * bytes_per_pixel /
    (1 << 20)], as a rational number of megabytes. *)
Definition spec_estimated_mb (width height : Z) : Q :=
  (inject_Z (width * height * kBytesPerPixel) / inject_Z (Z.shiftl 1 20))%Q.

(** Doubles in normal form (a 53-bit significand), used to follow the
    rounding of the estimate. *)
Definition canon (m : positive) : Prop := 2 ^ 52 <= Zpos m < 2 ^ 53.

Definition normal_in (f : spec_float) (s : bool) (lo hi : Z) : Prop :=
  exists (m : positive) (e : Z),
    f = S754_finite s m e /\ canon m /\ lo <= e <= hi.

(** [holds f s V j]: [f] is the double of sign [s] and magnitude
    [V / 2^j], for an integer [0 < V < 2^53]; such a value is exact. *)
Definition holds (f : spec_float) (s : bool) (V j : Z) : Prop :=
  exists (m : positive) (e : Z),
    f = S754_finite s m e /\ canon m /\
    e = Zdigits2 V - 53 - j /\ Zpos m = V * 2 ^ (53 - Zdigits2 V).

(** ** Execution outcomes

    A call either returns, or the process does not survive it: undefined
    behaviour (signed overflow, a store outside a vector) or an exception
    nobody catches ([std::length_error] from [resize], which ends in
    [std::terminate]). *)

Inductive exec (A : Type) : Type :=
| Ret (a : A)
| Crash.
Arguments Ret {A} a.
Arguments Crash {A}.

#[global] Instance exec_ret : MRet exec := fun A a => Ret a.
#[global] Instance exec_bind : MBind exec :=
  fun A B f m => match m with Ret a => f a | Crash => Crash end.

(** [int] arithmetic: a result outside the range is undefined. *)
Definition chk_int (z : Z) : exec Z :=
  if (INT_MIN <=? z) && (z <=? INT_MAX) then Ret z else Crash.

Definition int_mul (a b : Z) : exec Z := chk_int (a * b).
Definition int_add (a b : Z) : exec Z := chk_int (a + b).

(** [uint32] arithmetic wraps; the conversion of a [uint32] to [int] keeps
    the low 32 bits. *)
Definition to_uint32 (z : Z) : Z := z mod 2 ^ 32.
Definition to_int32 (z : Z) : Z := (z + 2 ^ 31) mod 2 ^ 32 - 2 ^ 31.

(** [std::vector<uint8_t>]: [resize] on the empty vector value-initialises
    [n] bytes; the [int] argument converts to [size_t], so a negative one
    exceeds [max_size()] and throws.  [operator[]] is unchecked, a store
    outside the vector is undefined. *)
Definition vector_resize (n : Z) : exec (list Z) :=
  if n <? 0 then Crash else Ret (replicate (Z.to_nat n) 0).

Definition vector_set (v : list Z) (i x : Z) : exec (list Z) :=
  if (0 <=? i) && (i <? Z.of_nat (length v))
  then Ret (<[Z.to_nat i := x]> v)
  else Crash.

(** A byte read from a buffer another library owns; [dflt] stands for what
    the memory holds outside the buffer. *)
Definition byte_at (dflt : Z) (buf : list Z) (i : Z) : Z :=
  if i <? 0 then dflt else default dflt (buf !! Z.to_nat i).

(** [count_loop n i body s] runs [body i], [body (i+1)], ... [n] times. *)
Fixpoint count_loop {St : Type} (n : nat) (i : Z) (body : Z -> St -> exec St)
    (s : St) : exec St :=
  match n with
  | O => Ret s
  | S n' => s' ← body i s; count_loop n' (i + 1) body s'
  end.

(** [for (int i = 0; i < bound; ++i) body]: the increment is [int]
    arithmetic. *)
Definition for_int {St : Type} (bound : Z) (body : Z -> St -> exec St)
    (s : St) : exec St :=
  count_loop (Z.to_nat bound) 0
    (fun i s => s' ← body i s; _ ← int_add i 1; Ret s') s.

(** [memcpy(dst + base, src, n)] into a vector; the [int] count converts
    to [size_t], so a negative one runs far past both buffers. *)
Definition memcpy (dst : list Z) (base : Z) (src : list Z) (n : Z)
    : exec (list Z) :=
  if n <? 0 then Crash
  else count_loop (Z.to_nat n) 0
         (fun i dst => vector_set dst (base + i) (byte_at 0 src i)) dst.

(** [row_out[3 * x + 0] = r; row_out[3 * x + 1] = g; row_out[3 * x + 2] = b]
    with [row_out = &rgb[base]]. *)
Definition store_rgb (rgb : list Z) (base x r g b : Z) : exec (list Z) :=
  t ← int_mul 3 x;
  i0 ← int_add t 0; rgb ← vector_set rgb (base + i0) r;
  i1 ← int_add t 1; rgb ← vector_set rgb (base + i1) g;
  i2 ← int_add t 2; vector_set rgb (base + i2) b.

(** ** Decoded images and the libraries behind the decoders *)

Record Image : Type := mkImage {
  xsize : Z;
  ysize : Z;
  rgb : list Z
}.

(** What libpng holds after [png_read_png] with the transforms PACKING,
    EXPAND and STRIP_16: the width and height ([png_uint_32]), the channel
    count and the row pointers; every row has [channels * width] bytes. *)
Record png_info : Type := mkPngInfo {
  png_get_image_width : Z;
  png_get_image_height : Z;
  png_get_channels : Z;
  png_get_rows : list (list Z)
}.

(** What libtiff reports for an open file: the three tags read with
    [TIFFGetField] (the variable keeps its initial 0 when the tag is
    absent) and the raster [TIFFReadRGBAImageOriented] fills, as the bytes
    of the [uint32] array in memory order (4 per pixel); [None] when that
    call returns 0. *)
Record tiff_info : Type := mkTiffInfo {
  tiff_ImageWidth : Z;
  tiff_ImageLength : Z;
  tiff_SamplesPerPixel : Z;
  tiff_RGBAImage : option (list Z)
}.

Definition kPNGMagicBytes : list Z := [137; 80; 78; 71; 13; 10; 26; 10].

(** The in-memory bytes of a [ushort], low byte first. *)
Definition ushort_bytes (v : Z) : list Z := [v mod 256; (v / 256) mod 256].

Inductive Processor : Type :=
| pngProcessor
| tiffProcessor
| jpegProcessor.

(** The state of the loop in [main]; [probes] records, in order, the
    processors called and what each returned. *)
Record MainState : Type := mkMainState {
  processed : bool;
  out_data : list Z;
  probes : list (Processor * ProcessResult)
}.

(** How [main] ends: the output file is written and 0 returned, or
    "Unknown file format" is printed and 2 returned. *)
Inductive MainResult : Type :=
| WroteOutput (contents : list Z)
| UnknownFileFormat.

Definition exit_code (r : MainResult) : Z :=
  match r with
  | WroteOutput _ => 0
  | UnknownFileFormat => 2
  end.

Definition ProcessResult_eqb (a b : ProcessResult) : bool :=
  match a, b with
  | NotSupported, NotSupported | ProcessFailed, ProcessFailed
  | Sucess, Sucess => true
  | _, _ => false
  end.

(** ** The pixels the PNG decoder owes

    The three output bytes for column [x] of a decoded row, by channel
    count: gray replicated; gray blended with the second channel and
    replicated; R, G, B copied; R, G, B each blended with the fourth
    channel. *)
Definition spec_png_pixel (cfg : Config) (components : Z) (row : list Z)
    (x : Z) : list Z :=
  if components =? 1 then
    let gray := byte_at 0 row x in [gray; gray; gray]
  else if components =? 2 then
    let gray := Blend cfg (byte_at 0 row (2 * x)) (byte_at 0 row (2 * x + 1)) in
    [gray; gray; gray]
  else if components =? 3 then
    [byte_at 0 row (3 * x); byte_at 0 row (3 * x + 1);
     byte_at 0 row (3 * x + 2)]
  else
    let alpha := byte_at 0 row (4 * x + 3) in
    [Blend cfg (byte_at 0 row (4 * x)) alpha;
     Blend cfg (byte_at 0 row (4 * x + 1)) alpha;
     Blend cfg (byte_at 0 row (4 * x + 2)) alpha].

(** The same, by position [i] in the output buffer of an image [width]
    pixels wide. *)
Definition spec_png_byte (cfg : Config) (info : png_info) (i : Z) : Z :=
  let width := png_get_image_width info in
  let p := i / 3 in
  let row := default [] (png_get_rows info !! Z.to_nat (p / width)) in
  default 0
    (spec_png_pixel cfg (png_get_channels info) row (p mod width)
       !! Z.to_nat (i mod 3)).

(** A vector of [n] bytes whose first [k] bytes are [f 0 .. f (k-1)]. *)
Definition filled (f : Z -> Z) (n k : Z) (v : list Z) : Prop :=
  Z.of_nat (length v) = n /\
  forall i, 0 <= i < k -> v !! Z.to_nat i = Some (f i).

(** ** Sample inputs

    Small files and stand-ins for the libraries, used to run the
    definitions on concrete data. *)

(** A 2x1 RGBA picture: a transparent pixel, then an opaque one. *)
Definition sample_rgba_row : list Z := [200; 100; 50; 0; 10; 20; 30; 255].

Definition sample_png_file : list Z := kPNGMagicBytes ++ [1; 2; 3; 4].
Definition broken_png_file : list Z := kPNGMagicBytes ++ [0; 0; 0; 0].

Definition sample_png_info : png_info :=
  mkPngInfo 2 1 4 [sample_rgba_row].

Definition sample_png_read_png (data : list Z) : option png_info :=
  if bool_decide (data = sample_png_file) then Some sample_png_info else None.

Definition sample_tiff_file : list Z := [73; 73; 42; 0].

Definition sample_tiff_info : tiff_info :=
  mkTiffInfo 2 1 4 (Some sample_rgba_row).

Definition sample_TIFFClientOpen (data : list Z) : option tiff_info :=
  if bool_decide (data = sample_tiff_file) then Some sample_tiff_info else None.

(** A header parser that accepts only data opening with the SOI marker. *)
Definition sample_ReadJpeg (data : list Z) : option (Z * Z) :=
  match data with
  | 255 :: 216 :: _ => Some (1, 1)
  | _ => None
  end.

Definition sample_encoder_rgb (cfg : Config) (rgb : list Z) (xsize ysize : Z)
    : option (list Z) := Some [255; 216; 255; 217].
Definition sample_encoder_jpeg (cfg : Config) (data : list Z)
    : option (list Z) := Some data.

Definition zero_buffer : list Z := replicate 16 0.

(** [TIFF_BIGENDIAN] is 0x4d4d and [TIFF_LITTLEENDIAN] 0x4949 in libtiff. *)
Definition sample_TIFF_BIGENDIAN : Z := 19789.
Definition sample_TIFF_LITTLEENDIAN : Z := 18761.

(** The sample RGBA pixels as [ReadPNG] returns them, blended on black. *)
Definition sample_decoded : Image := mkImage 2 1 [0; 0; 0; 10; 20; 30].

(** The same pixels as [ReadTIFF] returns them when a zero byte follows
    the raster. *)
Definition sample_tiff_decoded : Image := mkImage 2 1 [8; 4; 2; 0; 0; 0].

Definition with_memlimit (cfg : Config) (m : Z) : Config :=
  {| verbose := verbose cfg;
     quality := quality cfg;
     memlimit_mb := m;
     blendOnBlack := blendOnBlack cfg |}.

Section Frontend.

(** libpng: [None] when [png_read_png] reports an error (the [setjmp]
    branch). *)
Variable png_read_png : list Z -> option png_info.

(** libtiff: [None] when [TIFFClientOpen] returns null. *)
Variable TIFFClientOpen : list Z -> option tiff_info.

(** [TIFF_BIGENDIAN] and [TIFF_LITTLEENDIAN] of [tiff.h]. *)
Variable TIFF_BIGENDIAN TIFF_LITTLEENDIAN : Z.

(** The byte the heap holds right after the raster. *)
Variable past_raster : Z.

(** [guetzli::ReadJpeg] in [JPEG_READ_HEADER] mode: the width and height
    of the header, [None] when it returns false. *)
Variable ReadJpeg : list Z -> option (Z * Z).

(** [guetzli::Process] on an RGB buffer and on JPEG data, with the
    parameters derived from the configuration: the output on success. *)
Variable guetzli_Process_rgb : Config -> list Z -> Z -> Z -> option (list Z).
Variable guetzli_Process_jpeg : Config -> list Z -> option (list Z).

Variable cfg : Config.

(** *** PngProcessor *)

Definition ReadPNG_gray (info : png_info) (xsize ysize : Z)
    (rgb : list Z) : exec (list Z) :=
  for_int ysize (fun y rgb =>
    let row_in := default [] (png_get_rows info !! Z.to_nat y) in
    t ← int_mul 3 y; row_out ← int_mul t xsize;
    for_int xsize (fun x rgb =>
      let gray := byte_at 0 row_in x in
      store_rgb rgb row_out x gray gray gray) rgb) rgb.

Definition ReadPNG_gray_alpha (info : png_info) (xsize ysize : Z)
    (rgb : list Z) : exec (list Z) :=
  for_int ysize (fun y rgb =>
    let row_in := default [] (png_get_rows info !! Z.to_nat y) in
    t ← int_mul 3 y; row_out ← int_mul t xsize;
    for_int xsize (fun x rgb =>
      i ← int_mul 2 x; j ← int_add i 1;
      let gray := Blend cfg (byte_at 0 row_in i) (byte_at 0 row_in j) in
      store_rgb rgb row_out x gray gray gray) rgb) rgb.

Definition ReadPNG_rgb (info : png_info) (xsize ysize : Z)
    (rgb : list Z) : exec (list Z) :=
  for_int ysize (fun y rgb =>
    let row_in := default [] (png_get_rows info !! Z.to_nat y) in
    t ← int_mul 3 y; row_out ← int_mul t xsize;
    n ← int_mul 3 xsize;
    memcpy rgb row_out row_in n) rgb.

Definition ReadPNG_rgba (info : png_info) (xsize ysize : Z)
    (rgb : list Z) : exec (list Z) :=
  for_int ysize (fun y rgb =>
    let row_in := default [] (png_get_rows info !! Z.to_nat y) in
    t ← int_mul 3 y; row_out ← int_mul t xsize;
    for_int xsize (fun x rgb =>
      i ← int_mul 4 x;
      i3 ← int_add i 3;
      let alpha := byte_at 0 row_in i3 in
      i0 ← int_add i 0;
      let r := Blend cfg (byte_at 0 row_in i0) alpha in
      i1 ← int_add i 1;
      let g := Blend cfg (byte_at 0 row_in i1) alpha in
      i2 ← int_add i 2;
      let b := Blend cfg (byte_at 0 row_in i2) alpha in
      store_rgb rgb row_out x r g b) rgb) rgb.

(** [ReadPNG]: [Ret None] is [return false]. *)
Definition ReadPNG (data : list Z) : exec (option Image) :=
  match png_read_png data with
  | None => Ret None
  | Some info =>
    let xsize := to_int32 (png_get_image_width info) in
    let ysize := to_int32 (png_get_image_height info) in
    t ← int_mul 3 xsize; n ← int_mul t ysize;
    rgb ← vector_resize n;
    let components := png_get_channels info in
    if components =? 1 then
      rgb ← ReadPNG_gray info xsize ysize rgb;
      Ret (Some (mkImage xsize ysize rgb))
    else if components =? 2 then
      rgb ← ReadPNG_gray_alpha info xsize ysize rgb;
      Ret (Some (mkImage xsize ysize rgb))
    else if components =? 3 then
      rgb ← ReadPNG_rgb info xsize ysize rgb;
      Ret (Some (mkImage xsize ysize rgb))
    else if components =? 4 then
      rgb ← ReadPNG_rgba info xsize ysize rgb;
      Ret (Some (mkImage xsize ysize rgb))
    else Ret None
  end.

(** The tail the PNG and TIFF processors share word for word: the memory
    test, then the encoder. *)
Definition encode_rgb (img : Image) (out : list Z)
    : ProcessResult * list Z :=
  if MemlimitExceeded cfg (xsize img) (ysize img)
  then (ProcessFailed, out)
  else match guetzli_Process_rgb cfg (rgb img) (xsize img) (ysize img) with
       | None => (ProcessFailed, out)
       | Some jpg => (Sucess, jpg)
       end.

Definition has_png_magic (in_data : list Z) : bool :=
  (8 <=? Z.of_nat (length in_data)) &&
  bool_decide (take 8 in_data = kPNGMagicBytes).

Definition PngProcessor_Process (in_data out : list Z)
    : exec (ProcessResult * list Z) :=
  if has_png_magic in_data then
    r ← ReadPNG in_data;
    match r with
    | None => Ret (ProcessFailed, out)
    | Some img => Ret (encode_rgb img out)
    end
  else Ret (NotSupported, out).

(** *** TiffProcessor *)

(** [pixel[k]] for [pixel = (const uint8_t* )&row_in[x]] and
    [row_in = pixels + row]. *)
Definition pixel_byte (pixels : list Z) (row x k : Z) : Z :=
  byte_at past_raster pixels (4 * (row + x) + k).

Definition ReadTIFF_copy (pixels : list Z) (width height xsize : Z)
    (rgb : list Z) : exec (list Z) :=
  for_int height (fun y rgb =>
    let row_in := to_uint32 (y * width) in
    t ← int_mul 3 y; row_out ← int_mul t xsize;
    for_int xsize (fun x rgb =>
      store_rgb rgb row_out x
        (pixel_byte pixels row_in x 0)
        (pixel_byte pixels row_in x 1)
        (pixel_byte pixels row_in x 2)) rgb) rgb.

Definition ReadTIFF_blend (pixels : list Z) (width height xsize : Z)
    (rgb : list Z) : exec (list Z) :=
  for_int height (fun y rgb =>
    let row_in := to_uint32 (y * width) in
    t ← int_mul 3 y; row_out ← int_mul t xsize;
    for_int xsize (fun x rgb =>
      let alpha := pixel_byte pixels row_in x 4 in
      store_rgb rgb row_out x
        (Blend cfg (pixel_byte pixels row_in x 0) alpha)
        (Blend cfg (pixel_byte pixels row_in x 1) alpha)
        (Blend cfg (pixel_byte pixels row_in x 2) alpha)) rgb) rgb.

(** The byte [ReadTIFF_blend] leaves at position [i] of the output: sample
    [i mod 3] of pixel [i / 3], blended with byte 4 of that pixel's
    address. *)
Definition ReadTIFF_blend_byte (pixels : list Z) (i : Z) : Z :=
  Blend cfg (pixel_byte pixels 0 (i / 3) (i mod 3))
            (pixel_byte pixels 0 (i / 3) 4).

Definition ReadTIFF (data : list Z) : exec (option Image) :=
  match TIFFClientOpen data with
  | None => Ret None
  | Some tif =>
    let width := tiff_ImageWidth tif in
    let height := tiff_ImageLength tif in
    let components := tiff_SamplesPerPixel tif in
    match tiff_RGBAImage tif with
    | None => Ret None
    | Some pixels =>
      let xsize := to_int32 width in
      let ysize := to_int32 height in
      t ← int_mul 3 xsize; n ← int_mul t ysize;
      rgb ← vector_resize n;
      rgb ← (if negb (components =? 4)
             then ReadTIFF_copy pixels width height xsize rgb
             else ReadTIFF_blend pixels width height xsize rgb);
      Ret (Some (mkImage xsize ysize rgb))
    end
  end.

Definition has_tiff_magic (in_data : list Z) : bool :=
  (2 <=? Z.of_nat (length in_data)) &&
  (bool_decide (take 2 in_data = ushort_bytes TIFF_BIGENDIAN)
   || bool_decide (take 2 in_data = ushort_bytes TIFF_LITTLEENDIAN)).

Definition TiffProcessor_Process (in_data out : list Z)
    : exec (ProcessResult * list Z) :=
  if has_tiff_magic in_data then
    r ← ReadTIFF in_data;
    match r with
    | None => Ret (ProcessFailed, out)
    | Some img => Ret (encode_rgb img out)
    end
  else Ret (NotSupported, out).

(** *** JpegProcessor *)

Definition JpegProcessor_Process (in_data out : list Z)
    : exec (ProcessResult * list Z) :=
  match ReadJpeg in_data with
  | None => Ret (NotSupported, out)
  | Some (width, height) =>
    if MemlimitExceeded cfg width height
    then Ret (ProcessFailed, out)
    else match guetzli_Process_jpeg cfg in_data with
         | None => Ret (ProcessFailed, out)
         | Some jpg => Ret (Sucess, jpg)
         end
  end.

(** *** The loop over the processors in [main] *)

Definition Process (p : Processor) (in_data out : list Z)
    : exec (ProcessResult * list Z) :=
  match p with
  | pngProcessor => PngProcessor_Process in_data out
  | tiffProcessor => TiffProcessor_Process in_data out
  | jpegProcessor => JpegProcessor_Process in_data out
  end.

Definition processors : list Processor :=
  [pngProcessor; tiffProcessor; jpegProcessor].

Fixpoint process_loop (ps : list Processor) (in_data : list Z)
    (st : MainState) : exec MainState :=
  match ps with
  | [] => Ret st
  | processor :: ps' =>
    '(result, out) ← Process processor in_data (out_data st);
    let seen := probes st ++ [(processor, result)] in
    if negb (ProcessResult_eqb result NotSupported)
    then Ret (mkMainState (ProcessResult_eqb result Sucess) out seen)
    else process_loop ps' in_data (mkMainState (processed st) out seen)
  end.

Definition main_state (in_data : list Z) : exec MainState :=
  process_loop processors in_data (mkMainState false [] []).

Definition main_result (st : MainState) : MainResult :=
  if processed st then WroteOutput (out_data st) else UnknownFileFormat.

Definition main (in_data : list Z) : exec MainResult :=
  st ← main_state in_data; Ret (main_result st).


(** *** The in-memory file [ReadTIFF] hands to libtiff

    [tiff_io] holds the data pointer, the size and the read pointer [fp];
    [io_fp] is [fp - data].  [ReadTIFF] opens it at offset 0 with the size
    of the input. *)
Record tiff_io : Type := mkTiffIo {
  io_data : list Z;
  io_size : Z;
  io_fp : Z
}.

Definition tiff_io_open (data : list Z) : tiff_io :=
  mkTiffIo data (Z.of_nat (length data)) 0.

(** The state [tiff_Read] expects: the size is that of the data and [fp]
    lies between the start and the end. *)
Definition io_wf (io : tiff_io) : Prop :=
  io_size io = Z.of_nat (length (io_data io)) /\ 0 <= io_fp io <= io_size io.

(** [memcpy(buf, src + off, n)] out of a buffer: the byte count converts
    to [size_t], a negative one or a range outside the buffer is
    undefined. *)
Definition copy_from (src : list Z) (off n : Z) : exec (list Z) :=
  if n <? 0 then Crash
  else if (0 <=? off) && (off + n <=? Z.of_nat (length src))
  then Ret (take (Z.to_nat n) (drop (Z.to_nat off) src))
  else Crash.

(** [tiff_Read]: the new state, the bytes copied to [buf] and the count
    returned. *)
Definition tiff_Read (io : tiff_io) (size : Z) : exec (tiff_io * list Z * Z) :=
  let bytes_to_eof := io_size io - io_fp io in
  let size := if bytes_to_eof <? size then bytes_to_eof else size in
  buf ← copy_from (io_data io) (io_fp io) size;
  Ret (mkTiffIo (io_data io) (io_size io) (io_fp io + size), buf, size).

(** [whence] as [stdio.h] numbers it. *)
Definition SEEK_SET : Z := 0.
Definition SEEK_CUR : Z := 1.
Definition SEEK_END : Z := 2.

(** The width of libtiff's unsigned [toff_t]. *)
Variable toff_t_bits : Z.

(** [tiff_Seek]: the new state and the offset returned, [fp - data] as a
    [toff_t].  [off] is the unsigned offset libtiff passes; a pointer moved
    outside the buffer and its end is undefined. *)
Definition tiff_Seek (io : tiff_io) (off whence : Z) : exec (tiff_io * Z) :=
  let fp :=
    if whence =? SEEK_SET then off
    else if whence =? SEEK_CUR then io_fp io + off
    else if whence =? SEEK_END then io_size io - off
    else io_fp io in
  if (0 <=? fp) && (fp <=? io_size io)
  then Ret (mkTiffIo (io_data io) (io_size io) fp, fp mod 2 ^ toff_t_bits)
  else Crash.

(** *** ReadTIFF without alpha

    The byte [ReadTIFF_copy] leaves at position [i] of the output: sample
    [i mod 3] of pixel [i / 3]. *)
Definition ReadTIFF_copy_byte (pixels : list Z) (i : Z) : Z :=
  pixel_byte pixels 0 (i / 3) (i mod 3).

(** *** The command line

    The globals [main] sets: the configuration and [g_mathMode]. *)
Record Globals : Type := mkGlobals {
  g_cfg : Config;
  g_mathMode : Z
}.

Definition set_verbose (g : Globals) (v : Z) : Globals :=
  mkGlobals (mkConfig v (quality (g_cfg g)) (memlimit_mb (g_cfg g))
               (blendOnBlack (g_cfg g))) (g_mathMode g).

Definition set_quality (g : Globals) (q : Z) : Globals :=
  mkGlobals (mkConfig (verbose (g_cfg g)) q (memlimit_mb (g_cfg g))
               (blendOnBlack (g_cfg g))) (g_mathMode g).

Definition set_memlimit (g : Globals) (m : Z) : Globals :=
  mkGlobals (mkConfig (verbose (g_cfg g)) (quality (g_cfg g)) m
               (blendOnBlack (g_cfg g))) (g_mathMode g).

Definition set_blendOnBlack (g : Globals) (b : bool) : Globals :=
  mkGlobals (mkConfig (verbose (g_cfg g)) (quality (g_cfg g))
               (memlimit_mb (g_cfg g)) b) (g_mathMode g).

Definition set_mathMode (g : Globals) (m : Z) : Globals :=
  mkGlobals (g_cfg g) m.

(** libc's [atoi]. *)
Variable atoi : string -> Z.

(** Whether the build defines [__USE_OPENCL__] and [__USE_CUDA__]. *)
Variable USE_OPENCL USE_CUDA : bool.

(** The values of the [g_mathMode] enumeration that [main] names. *)
Variable MODE_CPU_OPT MODE_OPENCL MODE_CHECKCL : Z.
Variable MODE_CUDA MODE_CHECKCUDA MODE_AUTO : Z.

(** [supportsCuda()] and [supportsOpenCl()]; [None] when the call raises
    the exception the [__except] block catches. *)
Variable supportsCuda supportsOpenCl : option bool.

(** [strnlen(arg, 2) >= 2 && arg[0] == '-' && arg[1] == '-']. *)
Definition is_long_option (arg : string) : bool :=
  match arg with
  | String "-"%char (String "-"%char _) => true
  | _ => false
  end.

(** The option loop of [main] over [argv[1..]]: the globals and the
    arguments from [opt_idx] on, or [None] when [Usage()] ends the
    process. *)
Fixpoint parse_options (args : list string) (g : Globals)
    : option (Globals * list string) :=
  match args with
  | [] => Some (g, [])
  | arg :: rest =>
    if negb (is_long_option arg) then Some (g, args)
    else if (arg =? "--verbose")%string then
      parse_options rest (set_verbose g 1)
    else if (arg =? "--quality")%string then
      match rest with
      | [] => None
      | v :: rest' => parse_options rest' (set_quality g (atoi v))
      end
    else if (arg =? "--memlimit")%string then
      match rest with
      | [] => None
      | v :: rest' => parse_options rest' (set_memlimit g (atoi v))
      end
    else if (arg =? "--nomemlimit")%string then
      parse_options rest (set_memlimit g (-1))
    else if USE_OPENCL && (arg =? "--opencl")%string then
      parse_options rest (set_mathMode g MODE_OPENCL)
    else if USE_OPENCL && (arg =? "--checkcl")%string then
      parse_options rest (set_mathMode g MODE_CHECKCL)
    else if (arg =? "--c")%string then
      parse_options rest (set_mathMode g MODE_CPU_OPT)
    else if (arg =? "--blend-on-white")%string then
      parse_options rest (set_blendOnBlack g false)
    else if USE_CUDA && (arg =? "--cuda")%string then
      parse_options rest (set_mathMode g MODE_CUDA)
    else if USE_CUDA && (arg =? "--checkcuda")%string then
      parse_options rest (set_mathMode g MODE_CHECKCUDA)
    else if USE_CUDA && (arg =? "--auto")%string then
      parse_options rest (set_mathMode g MODE_AUTO)
    else if (arg =? "--")%string then Some (g, rest)
    else None
  end.

(** What one pass of the option loop does to the globals: for an option
    without a value, and for an option that consumes the next argument. *)
Definition flag_step (arg : string) (g g1 : Globals) : Prop :=
  arg = "--verbose"%string /\ g1 = set_verbose g 1 \/
  arg = "--nomemlimit"%string /\ g1 = set_memlimit g (-1) \/
  USE_OPENCL = true /\ arg = "--opencl"%string /\
    g1 = set_mathMode g MODE_OPENCL \/
  USE_OPENCL = true /\ arg = "--checkcl"%string /\
    g1 = set_mathMode g MODE_CHECKCL \/
  arg = "--c"%string /\ g1 = set_mathMode g MODE_CPU_OPT \/
  arg = "--blend-on-white"%string /\ g1 = set_blendOnBlack g false \/
  USE_CUDA = true /\ arg = "--cuda"%string /\
    g1 = set_mathMode g MODE_CUDA \/
  USE_CUDA = true /\ arg = "--checkcuda"%string /\
    g1 = set_mathMode g MODE_CHECKCUDA \/
  USE_CUDA = true /\ arg = "--auto"%string /\
    g1 = set_mathMode g MODE_AUTO.

Definition value_step (arg v : string) (g g1 : Globals) : Prop :=
  arg = "--quality"%string /\ g1 = set_quality g (atoi v) \/
  arg = "--memlimit"%string /\ g1 = set_memlimit g (atoi v).

(** [autoDetectBestMode]: the mode it stores in [g_mathMode]. *)
Definition autoDetectBestMode : Z :=
  if USE_CUDA && bool_decide (supportsCuda = Some true) then MODE_CUDA
  else if USE_OPENCL && bool_decide (supportsOpenCl = Some true)
  then MODE_OPENCL
  else MODE_CPU_OPT.

(** [main] up to the point where it reads the input: the globals, the
    input name and the output name; [None] when [Usage()] ends the
    process. *)
Definition main_arguments (args : list string) (g0 : Globals)
    : option (Globals * string * string) :=
  match parse_options args g0 with
  | Some (g, [input; output]) =>
    Some (if g_mathMode g =? MODE_AUTO
          then set_mathMode g autoDetectBestMode else g,
          input, output)
  | _ => None
  end.

(** A decimal [atoi] for the sample runs. *)
Fixpoint sample_digits (s : string) (acc : Z) : Z :=
  match s with
  | EmptyString => acc
  | String c s' =>
    let d := Z.of_nat (nat_of_ascii c) - 48 in
    if (0 <=? d) && (d <=? 9) then sample_digits s' (10 * acc + d) else acc
  end.

Definition sample_atoi (s : string) : Z :=
  match s with
  | String "-"%char s' => - sample_digits s' 0
  | _ => sample_digits s 0
  end.

Definition sample_globals : Globals := mkGlobals default_config 0.

(** A three-sample TIFF: libtiff's RGBA raster carries alpha 255. *)
Definition sample_rgb_raster : list Z := [200; 100; 50; 255; 10; 20; 30; 255].

Definition sample_tiff_info_rgb : tiff_info :=
  mkTiffInfo 2 1 3 (Some sample_rgb_raster).

Definition sample_TIFFClientOpen_rgb (data : list Z) : option tiff_info :=
  if bool_decide (data = sample_tiff_file) then Some sample_tiff_info_rgb
  else None.

(** A PNG header announcing 30000 x 30000 pixels. *)
Definition sample_huge_png_info : png_info := mkPngInfo 30000 30000 3 [].

Definition sample_png_read_png_huge (data : list Z) : option png_info :=
  if bool_decide (data = sample_png_file) then Some sample_huge_png_info
  else None.

Definition sample_jpeg_file : list Z := [255; 216; 255; 217].

(** A command line, and the globals [main] leaves for it in a build with
    both back ends where only OpenCL is available; the modes are numbered
    1 to 6 in the order of [main]'s options. *)
Definition sample_args : list string :=
  ["--quality"; "90"; "--blend-on-white"; "--auto"; "--nomemlimit";
   "in.png"; "out.jpg"]%string.

Definition sample_parsed_globals : Globals :=
  mkGlobals (mkConfig 0 90 (-1) false) 2.
(** ** Blending: arithmetic facts *)

Lemma to_uint8_small z : is_uint8 z -> to_uint8 z = z.
Proof. unfold is_uint8, to_uint8. intros H. apply Z.mod_small. lia. Qed.

Lemma blend_quot_div val alpha :
  0 <= val -> 0 <= alpha -> (val * alpha + 128) ÷ 255 = (val * alpha + 128) / 255.
Proof. intros Hv Ha. apply Z.quot_div_nonneg; nia. Qed.

Lemma blend_quotient_bounds val alpha :
  is_uint8 val -> is_uint8 alpha ->
  0 <= (val * alpha + 128) / 255 <= val.
Proof.
  unfold is_uint8. intros Hv Ha. split.
  - apply Z.div_pos; nia.
  - assert (H : (val * alpha + 128) / 255 < val + 1); [| lia].
    apply Z.div_lt_upper_bound; nia.
Qed.

Lemma BlendOnBlack_div val alpha :
  is_uint8 val -> is_uint8 alpha ->
  BlendOnBlack val alpha = (val * alpha + 128) / 255.
Proof.
  intros Hv Ha. unfold BlendOnBlack.
  rewrite blend_quot_div by (unfold is_uint8 in *; lia).
  apply to_uint8_small.
  pose proof (blend_quotient_bounds val alpha Hv Ha).
  unfold is_uint8 in *. lia.
Qed.

Lemma BlendOnWhite_opaque_or_partial val alpha :
  1 <= alpha -> BlendOnWhite val alpha = val.
Proof.
  intros Ha. unfold BlendOnWhite.
  destruct (Z.ltb_spec alpha 1); [lia | reflexivity].
Qed.

Lemma BlendOnWhite_transparent val : BlendOnWhite val 0 = 255.
Proof. unfold BlendOnWhite. rewrite Z.mul_0_r. reflexivity. Qed.

(** C6: on black, [Blend] is [(val * alpha + 128) / 255] in integer
    arithmetic; for bytes [val] and [alpha] the result lies between 0 and
    [val], it is 0 when [alpha = 0] and [val] when [alpha = 255]. *)
Theorem BlendOnBlack_range (conf : Config) (val alpha : Z) :
  blendOnBlack conf = true -> is_uint8 val -> is_uint8 alpha ->
  Blend conf val alpha = (val * alpha + 128) / 255 /\
  0 <= Blend conf val alpha <= val /\
  (alpha = 0 -> Blend conf val alpha = 0) /\
  (alpha = 255 -> Blend conf val alpha = val).
Proof.
  intros Hb Hv Ha. unfold Blend. rewrite Hb.
  rewrite (BlendOnBlack_div val alpha Hv Ha).
  split; [reflexivity |].
  split; [apply blend_quotient_bounds; assumption |].
  split; intros ->.
  - rewrite Z.mul_0_r. reflexivity.
  - replace (val * 255 + 128) with (128 + val * 255) by lia.
    rewrite Z.div_add by lia. reflexivity.
Qed.

(** C7: on white, a byte blended with [alpha = 0] gives 255 and with
    [alpha = 255] gives the byte itself. *)
Theorem BlendOnWhite_endpoints (conf : Config) (val : Z) :
  blendOnBlack conf = false -> is_uint8 val ->
  Blend conf val 0 = 255 /\ Blend conf val 255 = val.
Proof.
  intros Hb _. unfold Blend. rewrite Hb. split.
  - apply BlendOnWhite_transparent.
  - apply BlendOnWhite_opaque_or_partial. lia.
Qed.

(** C1, amended: on white, for every alpha strictly between 0 and 255 the
    guard [alpha < 1] is false and the sample is returned unchanged; the
    formula [255 - ((val * alpha + 128) / 255)] is only used at
    [alpha = 0]. *)
Theorem BlendOnWhite_partial_alpha (conf : Config) (val alpha : Z) :
  blendOnBlack conf = false -> is_uint8 val -> 0 < alpha < 255 ->
  Blend conf val alpha = val.
Proof.
  intros Hb _ Ha. unfold Blend. rewrite Hb.
  apply BlendOnWhite_opaque_or_partial. lia.
Qed.


(** ** Binary64: digits, shifts and rounding

    The facts about [SpecFloat]'s rounding that the memory test needs: an
    integer below [2^53] converts exactly, a product that fits 53 bits is
    exact, a larger one keeps its binade, and dividing by [2^20] only
    lowers the exponent. *)

Lemma Zdigits2_bounds z : 0 < z -> 2 ^ (Zdigits2 z - 1) <= z < 2 ^ Zdigits2 z.
Proof.
  destruct z as [|p|p]; try lia. intros _. simpl.
  induction p as [p IH|p IH|].
  - cbn [digits2_pos]. rewrite Pos2Z.inj_succ.
    replace (Z.succ (Z.pos (digits2_pos p)) - 1) with (Z.succ (Z.pos (digits2_pos p) - 1)) by lia.
    rewrite !Z.pow_succ_r by lia. lia.
  - cbn [digits2_pos]. rewrite Pos2Z.inj_succ.
    replace (Z.succ (Z.pos (digits2_pos p)) - 1) with (Z.succ (Z.pos (digits2_pos p) - 1)) by lia.
    rewrite !Z.pow_succ_r by lia. lia.
  - simpl. lia.
Qed.

Lemma Zdigits2_pos z : 0 < z -> 0 < Zdigits2 z.
Proof. destruct z; simpl; lia. Qed.

Lemma Zdigits2_unique z d :
  2 ^ (d - 1) <= z < 2 ^ d -> 0 < z -> Zdigits2 z = d.
Proof.
  intros [Hlo Hhi] Hz.
  pose proof (Zdigits2_bounds z Hz) as [Blo Bhi].
  pose proof (Zdigits2_pos z Hz) as Hd.
  assert (0 < d).
  { destruct (Z.ltb_spec 0 d); [assumption|].
    destruct (Z.eq_dec d 0) as [->|]; [simpl in Hhi; lia|].
    rewrite Z.pow_neg_r in Hhi by lia. lia. }
  assert (Zdigits2 z - 1 < d).
  { apply (Z.pow_lt_mono_r_iff 2); lia. }
  assert (d - 1 < Zdigits2 z).
  { apply (Z.pow_lt_mono_r_iff 2); lia. }
  lia.
Qed.

Lemma Zdigits2_mul_pow2 z k :
  0 < z -> 0 <= k -> Zdigits2 (z * 2 ^ k) = Zdigits2 z + k.
Proof.
  intros Hz Hk.
  pose proof (Zdigits2_bounds z Hz) as [Blo Bhi].
  pose proof (Zdigits2_pos z Hz) as Hd.
  assert (0 < 2 ^ k) by (apply Z.pow_pos_nonneg; lia).
  apply Zdigits2_unique; [|nia].
  replace (Zdigits2 z + k - 1) with ((Zdigits2 z - 1) + k) by lia.
  rewrite !Z.pow_add_r by lia. nia.
Qed.

(** Shifting right: [shr] divides by a power of two and keeps the
    remainder bits. *)
Lemma iter_pos_nat {A} (f : A -> A) p x :
  SpecFloat.iter_pos f p x = Nat.iter (Pos.to_nat p) f x.
Proof.
  revert x. induction p as [p IH|p IH|]; intros x; cbn [SpecFloat.iter_pos].
  - rewrite !IH. rewrite Pos2Nat.inj_xI.
    replace (2 * Pos.to_nat p)%nat with (Pos.to_nat p + Pos.to_nat p)%nat by lia.
    rewrite Nat.iter_succ_r, Nat.iter_add. reflexivity.
  - rewrite !IH. rewrite Pos2Nat.inj_xO.
    replace (2 * Pos.to_nat p)%nat with (Pos.to_nat p + Pos.to_nat p)%nat by lia.
    rewrite Nat.iter_add. reflexivity.
  - reflexivity.
Qed.

Lemma shr_1_m mrs :
  0 <= shr_m mrs -> shr_m (shr_1 mrs) = shr_m mrs / 2.
Proof.
  destruct mrs as [m r s]. cbn [shr_m]. intros Hm.
  rewrite <- Z.div2_div.
  destruct m as [|[p|p|]|p]; try reflexivity. lia.
Qed.

Lemma iter_shr_1_m k mrs :
  0 <= shr_m mrs ->
  shr_m (Nat.iter k shr_1 mrs) = shr_m mrs / 2 ^ Z.of_nat k.
Proof.
  intros Hm. induction k as [|k IH].
  - simpl. rewrite Z.div_1_r. reflexivity.
  - rewrite Nat.iter_succ. rewrite shr_1_m.
    + rewrite IH. rewrite Nat2Z.inj_succ, Z.pow_succ_r by lia.
      rewrite Z.div_div by (try apply Z.pow_pos_nonneg; lia).
      f_equal. lia.
    + rewrite IH. apply Z.div_pos; [lia|]. apply Z.pow_pos_nonneg; lia.
Qed.

Lemma iter_shr_1_exact k m :
  0 <= m ->
  Nat.iter k shr_1 (Build_shr_record (m * 2 ^ Z.of_nat k) false false)
  = Build_shr_record m false false.
Proof.
  revert m. induction k as [|k IH]; intros m Hm.
  - simpl. f_equal. lia.
  - rewrite Nat.iter_succ.
    replace (m * 2 ^ Z.of_nat (S k)) with ((2 * m) * 2 ^ Z.of_nat k).
    2:{ rewrite Nat2Z.inj_succ, Z.pow_succ_r by lia. lia. }
    rewrite IH by lia.
    destruct m as [|p|p]; [reflexivity|reflexivity|lia].
Qed.

Lemma shr_m_nonneg_pos mrs e n :
  0 <= shr_m mrs -> 0 <= n ->
  shr_m (fst (shr mrs e n)) = shr_m mrs / 2 ^ n /\ snd (shr mrs e n) = e + n.
Proof.
  intros Hm Hn. destruct n as [|p|p]; [| |lia].
  - simpl. rewrite Z.div_1_r. split; [reflexivity|lia].
  - cbn [shr fst snd]. rewrite iter_pos_nat, iter_shr_1_m by assumption.
    rewrite positive_nat_Z. split; reflexivity.
Qed.

Lemma shr_exact m e n :
  0 <= m -> 0 <= n ->
  shr (Build_shr_record (m * 2 ^ n) false false) e n
  = (Build_shr_record m false false, e + n).
Proof.
  intros Hm Hn. destruct n as [|p|p]; [| |lia].
  - simpl. rewrite Z.mul_1_r, Z.add_0_r. reflexivity.
  - cbn [shr]. rewrite iter_pos_nat.
    rewrite <- (positive_nat_Z p) at 1.
    rewrite iter_shr_1_exact by assumption. reflexivity.
Qed.


Lemma fexp64 x : -1021 <= x -> fexp prec64 emax64 x = x - 53.
Proof. intros H. unfold fexp, emin, prec64, emax64. lia. Qed.

Lemma round_nearest_even_bounds m l :
  m <= round_nearest_even m l <= m + 1.
Proof.
  destruct l as [|[| |]]; simpl; try lia.
  destruct (Z.even m); lia.
Qed.

Lemma shr_fexp_exact_loc m e :
  0 < m -> -1021 <= Zdigits2 m + e ->
  shr_fexp prec64 emax64 m e loc_Exact
  = shr (Build_shr_record m false false) e (Zdigits2 m - 53).
Proof.
  intros Hm He. unfold shr_fexp. rewrite fexp64 by assumption.
  cbn [shr_record_of_loc]. f_equal. lia.
Qed.

Lemma div_pow2_canon M d :
  0 < M -> Zdigits2 M = d -> 53 <= d ->
  2 ^ 52 <= M / 2 ^ (d - 53) < 2 ^ 53.
Proof.
  intros HM Hd H53.
  pose proof (Zdigits2_bounds M HM) as [Blo Bhi]. rewrite Hd in Blo, Bhi.
  assert (Hp : 0 < 2 ^ (d - 53)) by (apply Z.pow_pos_nonneg; lia).
  assert (E1 : 2 ^ (d - 1) = 2 ^ 52 * 2 ^ (d - 53)).
  { rewrite <- Z.pow_add_r by lia. f_equal. lia. }
  assert (E2 : 2 ^ d = 2 ^ 53 * 2 ^ (d - 53)).
  { rewrite <- Z.pow_add_r by lia. f_equal. lia. }
  split.
  - apply Z.div_le_lower_bound; lia.
  - apply Z.div_lt_upper_bound; lia.
Qed.

(** Rounding a significand of at least 53 bits: the result is normal, its
    exponent is raised by the bits dropped (one more on a carry), and it is
    exact when the dropped bits are zero. *)
Lemma binary_round_aux_normal sx M e :
  0 < M -> 53 <= Zdigits2 M -> -1021 <= Zdigits2 M + e -> Zdigits2 M + e <= 1023 ->
  exists (m : positive) (e' : Z),
    binary_round_aux prec64 emax64 sx M e loc_Exact = S754_finite sx m e' /\
    canon m /\
    Zdigits2 M - 53 <= e' - e <= Zdigits2 M - 52 /\
    (forall K, M = K * 2 ^ (Zdigits2 M - 53) -> Zpos m = K /\ e' = e + (Zdigits2 M - 53)).
Proof.
  intros HM Hd Hlo Hhi.
  set (d := Zdigits2 M) in *.
  unfold binary_round_aux.
  rewrite shr_fexp_exact_loc by (fold d; lia). fold d.
  pose proof (shr_m_nonneg_pos (Build_shr_record M false false) e (d - 53)) as Hs.
  cbn [shr_m] in Hs. specialize (Hs ltac:(lia) ltac:(lia)).
  destruct (shr (Build_shr_record M false false) e (d - 53)) as [mrs1 e1] eqn:E1.
  cbn [fst snd] in Hs. destruct Hs as [Hm1 He1].
  pose proof (div_pow2_canon M d HM eq_refl Hd) as Hc1. rewrite <- Hm1 in Hc1.
  set (m2 := round_nearest_even (shr_m mrs1) (loc_of_shr_record mrs1)).
  pose proof (round_nearest_even_bounds (shr_m mrs1) (loc_of_shr_record mrs1)) as Hr.
  fold m2 in Hr.
  assert (Hexact : forall K, M = K * 2 ^ (d - 53) -> m2 = K).
  { intros K HK. rewrite HK in E1.
    rewrite shr_exact in E1; [| |lia].
    - inversion E1; subst mrs1. reflexivity.
    - assert (0 < 2 ^ (d - 53)) by (apply Z.pow_pos_nonneg; lia). nia. }
  destruct (Z.eq_dec m2 (2 ^ 53)) as [Heq|Hne].
  - (* carry into the next binade *)
    rewrite Heq. rewrite shr_fexp_exact_loc; [|reflexivity|simpl; lia].
    change (Zdigits2 (2 ^ 53) - 53) with 1.
    change (shr {| shr_m := 2 ^ 53; shr_r := false; shr_s := false |} e1 1)
      with ({| shr_m := 2 ^ 52; shr_r := false; shr_s := false |}, e1 + 1).
    cbn [shr_m]. change (2 ^ 52) with (Zpos (Z.to_pos (2 ^ 52))).
    replace (e1 + 1 <=? emax64 - prec64) with true
      by (symmetry; apply Z.leb_le; unfold emax64, prec64; lia).
    eexists _, _. split; [reflexivity|]. split; [unfold canon; simpl; lia|].
    split; [lia|].
    intros K HK. exfalso. specialize (Hexact K HK).
    rewrite <- Hexact in HK.
    pose proof (Zdigits2_bounds M HM) as [_ Bhi]. fold d in Bhi.
    assert (2 ^ d = 2 ^ 53 * 2 ^ (d - 53)).
    { rewrite <- Z.pow_add_r by lia. f_equal. lia. }
    lia.
  - assert (Hm2 : 2 ^ 52 <= m2 < 2 ^ 53) by lia.
    assert (Hd2 : Zdigits2 m2 = 53) by (apply Zdigits2_unique; simpl; lia).
    rewrite shr_fexp_exact_loc by lia. rewrite Hd2.
    change (53 - 53) with 0. cbn [shr shr_m].
    destruct m2 as [|p|p] eqn:Em2; [lia| |lia].
    replace (e1 <=? emax64 - prec64) with true
      by (symmetry; apply Z.leb_le; unfold emax64, prec64; lia).
    exists p, e1. split; [reflexivity|]. split; [exact Hm2|].
    split; [lia|]. intros K HK. split; [apply Hexact, HK | lia].
Qed.

Lemma iter_xO_pow2 p d : Zpos (Pos.iter xO p d) = Zpos p * 2 ^ Zpos d.
Proof.
  induction d as [|d IH] using Pos.peano_ind.
  - simpl. lia.
  - rewrite Pos.iter_succ, Pos2Z.inj_xO, IH, Pos2Z.inj_succ, Z.pow_succ_r by lia.
    lia.
Qed.

Lemma binary_round_int sx p :
  Zpos p < 2 ^ 53 ->
  exists (m : positive) (e : Z),
    binary_round prec64 emax64 sx p 0 = S754_finite sx m e /\
    canon m /\ e = Zdigits2 (Zpos p) - 53 /\ Zpos m = Zpos p * 2 ^ (- e).
Proof.
  intros Hp.
  pose proof (Zdigits2_bounds (Zpos p) ltac:(lia)) as [Blo Bhi].
  pose proof (Zdigits2_pos (Zpos p) ltac:(lia)) as Hd0.
  assert (Hd : Zdigits2 (Zpos p) <= 53).
  { destruct (Z.leb_spec (Zdigits2 (Zpos p)) 53); [assumption|].
    assert (2 ^ 53 <= 2 ^ (Zdigits2 (Zpos p) - 1)) by (apply Z.pow_le_mono_r; lia).
    lia. }
  unfold binary_round.
  change (Z.pos (digits2_pos p)) with (Zdigits2 (Zpos p)).
  rewrite fexp64 by lia. rewrite Z.add_0_r.
  set (d := Zdigits2 (Zpos p)) in *.
  assert (Hal : exists mz, shl_align p 0 (d - 53) = (mz, d - 53) /\
                           Zpos mz = Zpos p * 2 ^ (53 - d)).
  { unfold shl_align. rewrite Z.sub_0_r.
    destruct (d - 53) as [|q|q] eqn:E; [|lia|].
    - exists p. replace (53 - d) with 0 by lia. split; [reflexivity|simpl; lia].
    - exists (Pos.iter xO p q). split; [reflexivity|].
      rewrite iter_xO_pow2. f_equal. f_equal. lia. }
  destruct Hal as (mz & -> & Hmz).
  assert (Hdz : Zdigits2 (Zpos mz) = 53).
  { rewrite Hmz, Zdigits2_mul_pow2 by lia. fold d. lia. }
  destruct (binary_round_aux_normal sx (Zpos mz) (d - 53)) as (m & e' & Hr & Hc & He & Hex);
    try (rewrite ?Hdz; lia).
  rewrite Hdz in Hex. destruct (Hex (Zpos mz)) as [Hm He']; [simpl; lia|].
  exists m, e'. split; [exact Hr|]. split; [exact Hc|].
  split; [lia|]. rewrite Hm, Hmz. f_equal. f_equal. lia.
Qed.

Lemma double_of_int_pos z :
  0 < z < 2 ^ 53 ->
  exists (m : positive) (e : Z),
    double_of_int z = S754_finite false m e /\
    canon m /\ e = Zdigits2 z - 53 /\ Zpos m = z * 2 ^ (- e).
Proof.
  intros Hz. destruct z as [|p|p]; try lia.
  apply binary_round_int. lia.
Qed.

Lemma double_of_int_neg z :
  0 < z < 2 ^ 53 ->
  exists (m : positive) (e : Z),
    double_of_int (- z) = S754_finite true m e /\
    canon m /\ e = Zdigits2 z - 53 /\ Zpos m = z * 2 ^ (- e).
Proof.
  intros Hz. destruct z as [|p|p]; try lia.
  apply binary_round_int. lia.
Qed.


Lemma Zdigits2_le_53 V : 0 < V < 2 ^ 53 -> 1 <= Zdigits2 V <= 53.
Proof.
  intros HV.
  pose proof (Zdigits2_bounds V ltac:(lia)) as [Blo Bhi].
  pose proof (Zdigits2_pos V ltac:(lia)) as Hd0.
  split; [lia|].
  destruct (Z.leb_spec (Zdigits2 V) 53); [assumption|].
  assert (2 ^ 53 <= 2 ^ (Zdigits2 V - 1)) by (apply Z.pow_le_mono_r; lia).
  lia.
Qed.

Lemma Zdigits2_ge_54 V : 2 ^ 53 <= V -> 54 <= Zdigits2 V.
Proof.
  intros HV.
  pose proof (Zdigits2_bounds V ltac:(lia)) as [Blo Bhi].
  destruct (Z.leb_spec 54 (Zdigits2 V)); [assumption|].
  assert (2 ^ Zdigits2 V <= 2 ^ 53) by (apply Z.pow_le_mono_r; lia).
  lia.
Qed.

Lemma double_of_int_holds z :
  0 < z < 2 ^ 53 -> holds (double_of_int z) false z 0.
Proof.
  intros Hz. destruct (double_of_int_pos z Hz) as (m & e & Hf & Hc & He & Hm).
  exists m, e. repeat split; try assumption; try apply Hc; [lia|].
  rewrite Hm. f_equal. f_equal. lia.
Qed.

Lemma double_of_int_opp_holds z :
  0 < z < 2 ^ 53 -> holds (double_of_int (- z)) true z 0.
Proof.
  intros Hz. destruct (double_of_int_neg z Hz) as (m & e & Hf & Hc & He & Hm).
  exists m, e. repeat split; try assumption; try apply Hc; [lia|].
  rewrite Hm. f_equal. f_equal. lia.
Qed.

Lemma holds_unique f g s V j : holds f s V j -> holds g s V j -> f = g.
Proof.
  intros (m & e & -> & _ & -> & Hm) (m' & e' & -> & _ & -> & Hm').
  f_equal. lia.
Qed.

Lemma holds_normal f s V j :
  0 < V < 2 ^ 53 -> holds f s V j -> normal_in f s (- 52 - j) (- j).
Proof.
  intros HV (m & e & -> & Hc & -> & Hm).
  pose proof (Zdigits2_le_53 V HV).
  exists m, (Zdigits2 V - 53 - j). split; [reflexivity|]. split; [exact Hc|lia].
Qed.

Lemma double_mul_normal s1 m1 e1 s2 m2 e2 :
  canon m1 -> canon m2 -> -1000 <= e1 + e2 <= 900 ->
  exists (m : positive) (e : Z),
    double_mul (S754_finite s1 m1 e1) (S754_finite s2 m2 e2)
    = S754_finite (xorb s1 s2) m e /\
    canon m /\
    Zdigits2 (Zpos m1 * Zpos m2) - 53 <= e - (e1 + e2)
      <= Zdigits2 (Zpos m1 * Zpos m2) - 52 /\
    105 <= Zdigits2 (Zpos m1 * Zpos m2) <= 106 /\
    (forall K, Zpos m1 * Zpos m2 = K * 2 ^ (Zdigits2 (Zpos m1 * Zpos m2) - 53) ->
               Zpos m = K /\ e = e1 + e2 + (Zdigits2 (Zpos m1 * Zpos m2) - 53)).
Proof.
  unfold canon. intros H1 H2 He.
  assert (Hd : 105 <= Zdigits2 (Zpos m1 * Zpos m2) <= 106).
  { pose proof (Zdigits2_bounds (Zpos m1 * Zpos m2) ltac:(lia)) as [Blo Bhi].
    assert (2 ^ 104 <= Zpos m1 * Zpos m2 < 2 ^ 106).
    { change (2 ^ 104) with (2 ^ 52 * 2 ^ 52).
      change (2 ^ 106) with (2 ^ 53 * 2 ^ 53). nia. }
    split.
    - destruct (Z.leb_spec 105 (Zdigits2 (Zpos m1 * Zpos m2))); [assumption|].
      assert (2 ^ Zdigits2 (Z.pos m1 * Z.pos m2) <= 2 ^ 104)
        by (apply Z.pow_le_mono_r; lia). lia.
    - destruct (Z.leb_spec (Zdigits2 (Zpos m1 * Zpos m2)) 106); [assumption|].
      assert (2 ^ 106 <= 2 ^ (Zdigits2 (Z.pos m1 * Z.pos m2) - 1))
        by (apply Z.pow_le_mono_r; lia). lia. }
  unfold double_mul. cbn [SFmul]. rewrite Pos2Z.inj_mul.
  destruct (binary_round_aux_normal (xorb s1 s2) (Zpos m1 * Zpos m2) (e1 + e2))
    as (m & e & Hr & Hc & Hb & Hex); try lia.
  exists m, e. split; [exact Hr|]. split; [exact Hc|].
  split; [exact Hb|]. split; [exact Hd|exact Hex].
Qed.

Lemma pow2_split a b : 0 <= a -> 0 <= b -> 2 ^ (a + b) = 2 ^ a * 2 ^ b.
Proof. intros. apply Z.pow_add_r; assumption. Qed.

Lemma double_mul_holds a b s1 s2 X Y j1 j2 :
  0 < X < 2 ^ 53 -> 0 < Y < 2 ^ 53 -> X * Y < 2 ^ 53 ->
  -400 <= j1 + j2 <= 400 ->
  holds a s1 X j1 -> holds b s2 Y j2 ->
  holds (double_mul a b) (xorb s1 s2) (X * Y) (j1 + j2).
Proof.
  intros HX HY HXY Hj (m1 & e1 & -> & Hc1 & He1 & Hm1) (m2 & e2 & -> & Hc2 & He2 & Hm2).
  pose proof (Zdigits2_le_53 X HX) as HdX.
  pose proof (Zdigits2_le_53 Y HY) as HdY.
  pose proof (Zdigits2_le_53 (X * Y) ltac:(nia)) as HdXY.
  destruct (double_mul_normal s1 m1 e1 s2 m2 e2 Hc1 Hc2 ltac:(lia))
    as (m & e & Hr & Hc & Hb & Hd & Hex).
  assert (HM : Zpos m1 * Zpos m2
               = X * Y * 2 ^ ((53 - Zdigits2 X) + (53 - Zdigits2 Y))).
  { rewrite Hm1, Hm2, pow2_split by lia. ring. }
  assert (HD : Zdigits2 (Zpos m1 * Zpos m2)
               = Zdigits2 (X * Y) + ((53 - Zdigits2 X) + (53 - Zdigits2 Y))).
  { rewrite HM. apply Zdigits2_mul_pow2; nia. }
  destruct (Hex (X * Y * 2 ^ (53 - Zdigits2 (X * Y)))) as [Hm He].
  { rewrite HD, HM.
    set (k := 53 - Zdigits2 X + (53 - Zdigits2 Y)).
    set (D := Zdigits2 (X * Y)) in *.
    replace (X * Y * 2 ^ (53 - D) * 2 ^ (D + k - 53))
      with (X * Y * (2 ^ (53 - D) * 2 ^ (D + k - 53))) by ring.
    rewrite <- pow2_split by lia. f_equal. f_equal. lia. }
  exists m, e. split; [exact Hr|]. split; [exact Hc|]. split; [lia|exact Hm].
Qed.

Lemma double_mul_holds_big a b s1 s2 X Y j1 j2 :
  0 < X < 2 ^ 53 -> 0 < Y < 2 ^ 53 -> 2 ^ 53 <= X * Y ->
  -400 <= j1 + j2 <= 400 ->
  holds a s1 X j1 -> holds b s2 Y j2 ->
  normal_in (double_mul a b) (xorb s1 s2) (1 - (j1 + j2)) (54 - (j1 + j2)).
Proof.
  intros HX HY HXY Hj (m1 & e1 & -> & Hc1 & He1 & Hm1) (m2 & e2 & -> & Hc2 & He2 & Hm2).
  pose proof (Zdigits2_le_53 X HX) as HdX.
  pose proof (Zdigits2_le_53 Y HY) as HdY.
  pose proof (Zdigits2_ge_54 (X * Y) HXY) as HdXY.
  destruct (double_mul_normal s1 m1 e1 s2 m2 e2 Hc1 Hc2 ltac:(lia))
    as (m & e & Hr & Hc & Hb & Hd & Hex).
  assert (HM : Zpos m1 * Zpos m2
               = X * Y * 2 ^ ((53 - Zdigits2 X) + (53 - Zdigits2 Y))).
  { rewrite Hm1, Hm2, pow2_split by lia. ring. }
  assert (HD : Zdigits2 (Zpos m1 * Zpos m2)
               = Zdigits2 (X * Y) + ((53 - Zdigits2 X) + (53 - Zdigits2 Y))).
  { rewrite HM. apply Zdigits2_mul_pow2; nia. }
  exists m, e. split; [exact Hr|]. split; [exact Hc|]. lia.
Qed.

Lemma double_mul_normal_in a b s1 s2 lo1 hi1 lo2 hi2 :
  -500 <= lo1 + lo2 -> hi1 + hi2 <= 450 ->
  normal_in a s1 lo1 hi1 -> normal_in b s2 lo2 hi2 ->
  normal_in (double_mul a b) (xorb s1 s2) (lo1 + lo2 + 52) (hi1 + hi2 + 54).
Proof.
  intros Hlo Hhi (m1 & e1 & -> & Hc1 & He1) (m2 & e2 & -> & Hc2 & He2).
  destruct (double_mul_normal s1 m1 e1 s2 m2 e2 Hc1 Hc2 ltac:(lia))
    as (m & e & Hr & Hc & Hb & Hd & Hex).
  exists m, e. split; [exact Hr|]. split; [exact Hc|]. lia.
Qed.

(** Division by [2^20] only lowers the exponent. *)
Lemma double_div_2p20 s m e :
  canon m -> -900 <= e <= 900 ->
  double_div (S754_finite s m e) (double_of_int (Z.shiftl 1 20))
  = S754_finite s m (e - 20).
Proof.
  intros Hc He.
  change (double_of_int (Z.shiftl 1 20))
    with (S754_finite false 4503599627370496 (-32)).
  unfold double_div. cbn [SFdiv]. rewrite xorb_false_r.
  assert (Hd : Zdigits2 (Zpos m) = 53) by (apply Zdigits2_unique; [exact Hc|lia]).
  unfold SFdiv_core_binary. rewrite Hd.
  change (Zdigits2 4503599627370496) with 53.
  rewrite fexp64 by lia.
  replace (Z.min (53 + e - (53 + -32) - 53) (e - -32)) with (e - 21) by lia.
  replace (e - -32 - (e - 21)) with 53 by lia.
  rewrite Z.shiftl_mul_pow2 by lia.
  assert (Hq : Z.div_eucl (Zpos m * 2 ^ 53) 4503599627370496 = (2 * Zpos m, 0)).
  { pose proof (Z.div_eucl_eq (Zpos m * 2 ^ 53) 4503599627370496 ltac:(lia)) as E.
    pose proof (Z.mod_pos_bound (Zpos m * 2 ^ 53) 4503599627370496 ltac:(lia)) as B.
    unfold Z.modulo in B.
    destruct (Z.div_eucl (Zpos m * 2 ^ 53) 4503599627370496) as [q r].
    change (2 ^ 53) with (2 * 4503599627370496) in E.
    f_equal; lia. }
  rewrite Hq. change (new_location 4503599627370496 0) with loc_Exact.
  assert (Hd2 : Zdigits2 (2 * Zpos m) = 54).
  { apply Zdigits2_unique; [|lia]. unfold canon in Hc.
    change (2 ^ (54 - 1)) with (2 * 2 ^ 52). change (2 ^ 54) with (2 * 2 ^ 53). lia. }
  destruct (binary_round_aux_normal s (2 * Zpos m) (e - 21))
    as (m' & e' & Hr & Hc' & Hb & Hex); try (rewrite ?Hd2; lia).
  rewrite Hd2 in Hex. destruct (Hex (Zpos m)) as [Hm He']; [simpl; lia|].
  rewrite Hr. f_equal; lia.
Qed.

Lemma SFltb_canon m1 e1 m2 e2 c :
  canon m1 -> canon m2 -> c <= e1 -> c <= e2 ->
  (SFltb (S754_finite false m1 e1) (S754_finite false m2 e2) = true <->
   Zpos m1 * 2 ^ (e1 - c) < Zpos m2 * 2 ^ (e2 - c)).
Proof.
  unfold canon. intros H1 H2 Hc1 Hc2.
  assert (P1 : 0 < 2 ^ (e1 - c)) by (apply Z.pow_pos_nonneg; lia).
  assert (P2 : 0 < 2 ^ (e2 - c)) by (apply Z.pow_pos_nonneg; lia).
  unfold SFltb, SFcompare. destruct (Z.compare_spec e1 e2) as [E|E|E].
  - subst e2. change (Pos.compare_cont Eq m1 m2) with (Pos.compare m1 m2).
    destruct (Pos.compare_spec m1 m2) as [C|C|C].
    + subst. split; [discriminate|lia].
    + split; [intros _; nia|reflexivity].
    + split; [discriminate|nia].
  - split; [intros _|reflexivity].
    assert (2 ^ (e2 - c) = 2 ^ (e2 - e1) * 2 ^ (e1 - c)).
    { rewrite <- pow2_split by lia. f_equal. lia. }
    assert (2 <= 2 ^ (e2 - e1)).
    { change 2 with (2 ^ 1) at 1. apply Z.pow_le_mono_r; lia. }
    nia.
  - split; [discriminate|].
    assert (2 ^ (e1 - c) = 2 ^ (e1 - e2) * 2 ^ (e2 - c)).
    { rewrite <- pow2_split by lia. f_equal. lia. }
    assert (2 <= 2 ^ (e1 - e2)).
    { change 2 with (2 ^ 1) at 1. apply Z.pow_le_mono_r; lia. }
    nia.
Qed.

Lemma SFltb_holds a b V1 V2 j1 j2 :
  0 < V1 < 2 ^ 53 -> 0 < V2 < 2 ^ 53 -> 0 <= j1 -> 0 <= j2 ->
  holds a false V1 j1 -> holds b false V2 j2 ->
  (SFltb a b = true <-> V1 * 2 ^ j2 < V2 * 2 ^ j1).
Proof.
  intros HV1 HV2 Hj1 Hj2 (m1 & e1 & -> & Hc1 & He1 & Hm1) (m2 & e2 & -> & Hc2 & He2 & Hm2).
  pose proof (Zdigits2_le_53 V1 HV1) as Hd1.
  pose proof (Zdigits2_le_53 V2 HV2) as Hd2.
  rewrite (SFltb_canon m1 e1 m2 e2 (- 53 - j1 - j2)) by (assumption || lia).
  rewrite Hm1, Hm2, He1, He2.
  replace (Zdigits2 V1 - 53 - j1 - (-53 - j1 - j2)) with (Zdigits2 V1 + j2) by lia.
  replace (Zdigits2 V2 - 53 - j2 - (-53 - j1 - j2)) with (Zdigits2 V2 + j1) by lia.
  rewrite <- !Z.mul_assoc, <- !pow2_split by lia.
  replace (53 - Zdigits2 V1 + (Zdigits2 V1 + j2)) with (j2 + 53) by lia.
  replace (53 - Zdigits2 V2 + (Zdigits2 V2 + j1)) with (j1 + 53) by lia.
  rewrite !pow2_split by lia.
  assert (0 < 2 ^ j1) by (apply Z.pow_pos_nonneg; lia).
  assert (0 < 2 ^ j2) by (apply Z.pow_pos_nonneg; lia).
  change (2 ^ 53) with 9007199254740992. nia.
Qed.

Lemma SFltb_exponent m1 e1 m2 e2 :
  e1 < e2 -> SFltb (S754_finite false m1 e1) (S754_finite false m2 e2) = true.
Proof.
  intros H. unfold SFltb, SFcompare.
  destruct (Z.compare_spec e1 e2); first [reflexivity | lia].
Qed.

Lemma SFltb_negative m1 e1 f lo hi :
  normal_in f true lo hi -> SFltb (S754_finite false m1 e1) f = false.
Proof. intros (m & e & Hf & _). rewrite Hf. reflexivity. Qed.

(** [int] to [double], signs included. *)
Lemma double_of_int_nonzero z :
  z <> 0 -> Z.abs z < 2 ^ 53 ->
  holds (double_of_int z) (z <? 0) (Z.abs z) 0.
Proof.
  intros Hz Hb. destruct (Z.ltb_spec z 0).
  - replace z with (- Z.abs z) at 1 by lia. apply double_of_int_opp_holds. lia.
  - replace z with (Z.abs z) at 1 by lia. apply double_of_int_holds. lia.
Qed.

Lemma double_div_2p20_holds q s V j :
  0 < V < 2 ^ 53 -> -400 <= j <= 400 ->
  holds q s V j -> holds (double_div q (double_of_int (Z.shiftl 1 20))) s V (j + 20).
Proof.
  intros HV Hj (m & e & -> & Hc & He & Hm).
  pose proof (Zdigits2_le_53 V HV).
  rewrite double_div_2p20 by (assumption || lia).
  exists m, (e - 20). split; [reflexivity|]. split; [exact Hc|]. split; [lia|exact Hm].
Qed.

Lemma double_div_2p20_normal q s lo hi :
  -900 <= lo -> hi <= 900 ->
  normal_in q s lo hi ->
  normal_in (double_div q (double_of_int (Z.shiftl 1 20))) s (lo - 20) (hi - 20).
Proof.
  intros Hlo Hhi (m & e & -> & Hc & He).
  rewrite double_div_2p20 by (assumption || lia).
  exists m, (e - 20). split; [reflexivity|]. split; [exact Hc|lia].
Qed.


Lemma estimate_exceeds_zero_l y m :
  Z.abs y < 2 ^ 53 -> 0 < m < 2 ^ 53 -> estimate_exceeds 0 y m = false.
Proof.
  intros Hy Hm. unfold estimate_exceeds. change kBytesPerPixel with 110.
  destruct (double_of_int_holds m Hm) as (mm & em & -> & _).
  destruct (Z.eq_dec y 0) as [->|Hy0]; [reflexivity|].
  destruct (double_of_int_nonzero y Hy0 Hy) as (my & ey & -> & _).
  destruct (y <? 0); reflexivity.
Qed.

Lemma estimate_exceeds_zero_r x m :
  Z.abs x < 2 ^ 53 -> 0 < m < 2 ^ 53 -> estimate_exceeds x 0 m = false.
Proof.
  intros Hx Hm. unfold estimate_exceeds. change kBytesPerPixel with 110.
  destruct (double_of_int_holds m Hm) as (mm & em & -> & _).
  destruct (Z.eq_dec x 0) as [->|Hx0]; [reflexivity|].
  destruct (double_of_int_nonzero x Hx0 Hx) as (mx & ex & -> & _).
  destruct (x <? 0); reflexivity.
Qed.

Lemma sign_of_product x y :
  x <> 0 -> y <> 0 ->
  x * y = (if xorb (x <? 0) (y <? 0) then -1 else 1) * (Z.abs x * Z.abs y).
Proof.
  intros Hx Hy.
  destruct (Z.ltb_spec x 0), (Z.ltb_spec y 0); simpl; nia.
Qed.

(** For [int] dimensions and a positive [int] limit the comparison the
    processors make in binary64 decides the exact inequality. *)
Lemma estimate_exceeds_spec x y m :
  Z.abs x <= 2 ^ 31 -> Z.abs y <= 2 ^ 31 -> 0 < m < 2 ^ 31 ->
  (estimate_exceeds x y m = true <-> m * 2 ^ 20 < x * y * 110).
Proof.
  intros Hx Hy Hm.
  destruct (Z.eq_dec x 0) as [->|Hx0].
  { rewrite estimate_exceeds_zero_l by lia. split; [discriminate|lia]. }
  destruct (Z.eq_dec y 0) as [->|Hy0].
  { rewrite estimate_exceeds_zero_r by lia. split; [discriminate|lia]. }
  pose proof (double_of_int_nonzero x Hx0 ltac:(lia)) as HX.
  pose proof (double_of_int_nonzero y Hy0 ltac:(lia)) as HY.
  pose proof (double_of_int_holds m ltac:(lia)) as HM.
  pose proof (double_of_int_holds 110 ltac:(lia)) as H110.
  pose proof (sign_of_product x y Hx0 Hy0) as Hsign.
  set (X := Z.abs x) in *. set (Y := Z.abs y) in *.
  set (s := xorb (x <? 0) (y <? 0)) in *.
  assert (HXb : 0 < X < 2 ^ 53) by lia.
  assert (HYb : 0 < Y < 2 ^ 53) by lia.
  assert (HXY : 0 < X * Y) by nia.
  unfold estimate_exceeds, double_gt. change kBytesPerPixel with 110.
  set (p := double_mul (double_of_int x) (double_of_int y)).
  set (q := double_mul p (double_of_int 110)).
  set (t := double_div q (double_of_int (Z.shiftl 1 20))).
  (* either [t] holds the estimate exactly, or it is at least 2^33 *)
  assert (Ht : (X * Y * 110 < 2 ^ 53 /\ holds t s (X * Y * 110) 20) \/
               (2 ^ 53 <= X * Y * 110 /\ normal_in t s (-19) 88)).
  { destruct (Z.lt_ge_cases (X * Y) (2 ^ 53)) as [Hsmall|Hbig].
    - pose proof (double_mul_holds _ _ _ _ X Y 0 0 HXb HYb Hsmall ltac:(lia) HX HY) as Hp.
      fold p s in Hp. change (0 + 0) with 0 in Hp.
      destruct (Z.lt_ge_cases (X * Y * 110) (2 ^ 53)) as [Hsmall'|Hbig'].
      + left. split; [assumption|].
        pose proof (double_mul_holds _ _ _ _ (X * Y) 110 0 0 ltac:(lia) ltac:(lia)
                      Hsmall' ltac:(lia) Hp H110) as Hq.
        fold q in Hq. rewrite xorb_false_r in Hq. change (0 + 0) with 0 in Hq.
        apply (double_div_2p20_holds q s (X * Y * 110) 0); [lia|lia|exact Hq].
      + right. split; [assumption|].
        pose proof (double_mul_holds_big _ _ _ _ (X * Y) 110 0 0 ltac:(lia) ltac:(lia)
                      Hbig' ltac:(lia) Hp H110) as Hq.
        fold q in Hq. rewrite xorb_false_r in Hq.
        apply double_div_2p20_normal in Hq; [|lia|lia].
        destruct Hq as (mt & et & Et & Hct & Het).
        exists mt, et. split; [exact Et|]. split; [exact Hct|lia].
    - right. split; [lia|].
      pose proof (double_mul_holds_big _ _ _ _ X Y 0 0 HXb HYb Hbig ltac:(lia) HX HY) as Hp.
      fold p s in Hp.
      pose proof (holds_normal _ false 110 0 ltac:(lia) H110) as N110.
      assert (Hq : normal_in q (xorb s false) (1 - (0 + 0) + (-52 - 0) + 52)
                             (54 - (0 + 0) + - 0 + 54)).
      { apply double_mul_normal_in; [lia|lia|exact Hp|exact N110]. }
      rewrite xorb_false_r in Hq.
      apply double_div_2p20_normal in Hq; [|lia|lia].
      destruct Hq as (mt & et & Et & Hct & Het).
      exists mt, et. split; [exact Et|]. split; [exact Hct|lia]. }
  fold t.
  assert (Hm51 : m * 2 ^ 20 < 2 ^ 51).
  { change (2 ^ 51) with (2 ^ 31 * 2 ^ 20). nia. }
  destruct s.
  - (* the product is negative *)
    assert (Hneg : SFltb (double_of_int m) t = false).
    { destruct HM as (mm & em & -> & _).
      destruct Ht as [[_ Ht]|[_ Ht]].
      - destruct Ht as (mt & et & -> & _). reflexivity.
      - destruct Ht as (mt & et & -> & _). reflexivity. }
    rewrite Hneg. split; [discriminate|nia].
  - destruct Ht as [[Hs Ht]|[Hb Ht]].
    + rewrite (SFltb_holds _ _ m (X * Y * 110) 0 20 ltac:(lia) ltac:(lia)
                 ltac:(lia) ltac:(lia) HM Ht).
      rewrite Hsign. change (2 ^ 0) with 1. lia.
    + destruct HM as (mm & em & -> & _ & Hem & _).
      destruct Ht as (mt & et & -> & _ & Het).
      pose proof (Zdigits2_bounds m ltac:(lia)) as [Blo _].
      assert (Zdigits2 m <= 31).
      { destruct (Z.leb_spec (Zdigits2 m) 31); [assumption|].
        assert (2 ^ 31 <= 2 ^ (Zdigits2 m - 1)) by (apply Z.pow_le_mono_r; lia).
        lia. }
      rewrite SFltb_exponent by lia.
      split; [intros _|reflexivity]. rewrite Hsign. lia.
Qed.

(** ** Memory admission *)

Lemma Qlt_estimated_mb m width height :
  (inject_Z m < spec_estimated_mb width height)%Q <->
  m * 2 ^ 20 < width * height * 110.
Proof.
  unfold spec_estimated_mb, Qlt, Qdiv, Qmult, Qinv, inject_Z, kBytesPerPixel.
  cbn [Qnum Qden Z.shiftl Pos.iter]. simpl Qnum. simpl Qden.
  change (2 ^ 20) with 1048576. lia.
Qed.

Lemma MemlimitExceeded_unlimited width height :
  memlimit_mb cfg = -1 -> MemlimitExceeded cfg width height = false.
Proof. intros H. unfold MemlimitExceeded. rewrite H. reflexivity. Qed.

Lemma MemlimitExceeded_finite width height :
  is_int width -> is_int height -> is_int (memlimit_mb cfg) ->
  memlimit_mb cfg <> -1 ->
  (MemlimitExceeded cfg width height = true <->
   memlimit_mb cfg * 2 ^ 20 < width * height * 110 \/
   memlimit_mb cfg < kLowestMemusageMB).
Proof.
  unfold is_int, INT_MIN, INT_MAX, kLowestMemusageMB.
  intros Hw Hh Hm Hfin. unfold MemlimitExceeded, kLowestMemusageMB.
  destruct (Z.eqb_spec (memlimit_mb cfg) (-1)) as [|_]; [contradiction|].
  cbn [negb andb].
  destruct (Z.ltb_spec (memlimit_mb cfg) 100) as [Hlow|Hhigh].
  - rewrite orb_true_r. split; [intros _; right; exact Hlow|reflexivity].
  - rewrite orb_false_r.
    rewrite estimate_exceeds_spec by (change (2 ^ 31) with 2147483648; lia).
    split; [intros H; left; exact H|intros [H|H]; [exact H|lia]].
Qed.

Lemma PngProcessor_Process_decoded data out img :
  has_png_magic data = true -> ReadPNG data = Ret (Some img) ->
  PngProcessor_Process data out = Ret (encode_rgb img out).
Proof.
  intros Hmagic Hread. unfold PngProcessor_Process.
  rewrite Hmagic, Hread. reflexivity.
Qed.

Lemma TiffProcessor_Process_decoded data out img :
  has_tiff_magic data = true -> ReadTIFF data = Ret (Some img) ->
  TiffProcessor_Process data out = Ret (encode_rgb img out).
Proof.
  intros Hmagic Hread. unfold TiffProcessor_Process.
  rewrite Hmagic, Hread. reflexivity.
Qed.

(** C3: with a finite limit the memory test rejects exactly when the
    estimate [width * height * 110 / (1 << 20)] exceeds the limit or the
    limit is below 100 MB; 10000 x 10000 pixels are rejected under a limit
    of 100 MB; the PNG, TIFF and JPEG processors all fail on this one test
    and go on to the encoder otherwise. *)
Theorem admission_gate (width height : Z) :
  is_int width -> is_int height -> is_int (memlimit_mb cfg) ->
  memlimit_mb cfg <> -1 ->
  (MemlimitExceeded cfg width height = true <->
   (inject_Z (memlimit_mb cfg) < spec_estimated_mb width height)%Q \/
   memlimit_mb cfg < kLowestMemusageMB) /\
  MemlimitExceeded (with_memlimit cfg 100) 10000 10000 = true /\
  (forall data out img,
     has_png_magic data = true -> ReadPNG data = Ret (Some img) ->
     xsize img = width -> ysize img = height ->
     PngProcessor_Process data out =
     Ret (if MemlimitExceeded cfg width height then (ProcessFailed, out)
          else match guetzli_Process_rgb cfg (rgb img) width height with
               | None => (ProcessFailed, out)
               | Some jpg => (Sucess, jpg)
               end)) /\
  (forall data out img,
     has_tiff_magic data = true -> ReadTIFF data = Ret (Some img) ->
     xsize img = width -> ysize img = height ->
     TiffProcessor_Process data out =
     Ret (if MemlimitExceeded cfg width height then (ProcessFailed, out)
          else match guetzli_Process_rgb cfg (rgb img) width height with
               | None => (ProcessFailed, out)
               | Some jpg => (Sucess, jpg)
               end)) /\
  (forall data out,
     ReadJpeg data = Some (width, height) ->
     JpegProcessor_Process data out =
     Ret (if MemlimitExceeded cfg width height then (ProcessFailed, out)
          else match guetzli_Process_jpeg cfg data with
               | None => (ProcessFailed, out)
               | Some jpg => (Sucess, jpg)
               end)).
Proof.
  intros Hw Hh Hm Hfin. split; [|split; [|split; [|split]]].
  - rewrite MemlimitExceeded_finite by assumption.
    rewrite Qlt_estimated_mb. reflexivity.
  - vm_compute. reflexivity.
  - intros data out img Hmagic Hread <- <-.
    rewrite (PngProcessor_Process_decoded data out img Hmagic Hread).
    reflexivity.
  - intros data out img Hmagic Hread <- <-.
    rewrite (TiffProcessor_Process_decoded data out img Hmagic Hread).
    reflexivity.
  - intros data out Hread. unfold JpegProcessor_Process. rewrite Hread.
    destruct (MemlimitExceeded cfg width height); [reflexivity|].
    destruct (guetzli_Process_jpeg cfg data); reflexivity.
Qed.

(** C10: with the limit -1 (--nomemlimit) the memory test lets every
    width and height through, the estimate and the 100 MB floor are both
    skipped, and each processor goes on to the encoder. *)
Theorem nomemlimit_admits (width height : Z) :
  memlimit_mb cfg = -1 ->
  MemlimitExceeded cfg width height = false /\
  (forall data out img,
     has_png_magic data = true -> ReadPNG data = Ret (Some img) ->
     PngProcessor_Process data out =
     Ret (match guetzli_Process_rgb cfg (rgb img) (xsize img) (ysize img) with
          | None => (ProcessFailed, out)
          | Some jpg => (Sucess, jpg)
          end)) /\
  (forall data out img,
     has_tiff_magic data = true -> ReadTIFF data = Ret (Some img) ->
     TiffProcessor_Process data out =
     Ret (match guetzli_Process_rgb cfg (rgb img) (xsize img) (ysize img) with
          | None => (ProcessFailed, out)
          | Some jpg => (Sucess, jpg)
          end)) /\
  (forall data out,
     ReadJpeg data = Some (width, height) ->
     JpegProcessor_Process data out =
     Ret (match guetzli_Process_jpeg cfg data with
          | None => (ProcessFailed, out)
          | Some jpg => (Sucess, jpg)
          end)).
Proof.
  intros Hunl. split; [|split; [|split]].
  - apply MemlimitExceeded_unlimited, Hunl.
  - intros data out img Hmagic Hread.
    rewrite (PngProcessor_Process_decoded data out img Hmagic Hread).
    unfold encode_rgb. rewrite MemlimitExceeded_unlimited by exact Hunl.
    reflexivity.
  - intros data out img Hmagic Hread.
    rewrite (TiffProcessor_Process_decoded data out img Hmagic Hread).
    unfold encode_rgb. rewrite MemlimitExceeded_unlimited by exact Hunl.
    reflexivity.
  - intros data out Hread. unfold JpegProcessor_Process. rewrite Hread.
    rewrite MemlimitExceeded_unlimited by exact Hunl.
    destruct (guetzli_Process_jpeg cfg data); reflexivity.
Qed.

(** ** The processors and the loop in [main] *)

Lemma has_png_magic_true data :
  (8 <= length data)%nat -> take 8 data = kPNGMagicBytes ->
  has_png_magic data = true.
Proof.
  intros Hlen Hsig. unfold has_png_magic.
  rewrite bool_decide_eq_true_2 by exact Hsig.
  rewrite andb_true_r. apply Z.leb_le. lia.
Qed.

Lemma has_png_magic_false data :
  ~ ((8 <= length data)%nat /\ take 8 data = kPNGMagicBytes) ->
  has_png_magic data = false.
Proof.
  intros Hno. unfold has_png_magic.
  destruct (Z.leb_spec 8 (Z.of_nat (length data))) as [Hlen|Hlen];
    [|reflexivity].
  cbn [andb]. apply bool_decide_eq_false_2. intros Hsig.
  apply Hno. split; [lia|exact Hsig].
Qed.

Lemma has_tiff_magic_false data :
  ~ ((2 <= length data)%nat /\
     (take 2 data = ushort_bytes TIFF_BIGENDIAN \/
      take 2 data = ushort_bytes TIFF_LITTLEENDIAN)) ->
  has_tiff_magic data = false.
Proof.
  intros Hno. unfold has_tiff_magic.
  destruct (Z.leb_spec 2 (Z.of_nat (length data))) as [Hlen|Hlen];
    [|reflexivity].
  cbn [andb]. apply orb_false_intro; apply bool_decide_eq_false_2;
    intros Hsig; apply Hno; (split; [lia|]); [left|right]; exact Hsig.
Qed.

Lemma encode_rgb_supported img out :
  fst (encode_rgb img out) <> NotSupported.
Proof.
  unfold encode_rgb. destruct (MemlimitExceeded cfg (xsize img) (ysize img));
    [discriminate|].
  destruct (guetzli_Process_rgb cfg (rgb img) (xsize img) (ysize img));
    discriminate.
Qed.

Lemma PngProcessor_Process_supported data out0 r out :
  has_png_magic data = true ->
  PngProcessor_Process data out0 = Ret (r, out) -> r <> NotSupported.
Proof.
  intros Hmagic. unfold PngProcessor_Process. rewrite Hmagic.
  destruct (ReadPNG data) as [[img|]|]; cbn; intros H; inversion H; subst.
  - pose proof (encode_rgb_supported img out0) as Hs.
    destruct (encode_rgb img out0) as [r' out']. inversion H1; subst.
    exact Hs.
  - discriminate.
Qed.

Lemma main_state_first_probe data r out :
  PngProcessor_Process data [] = Ret (r, out) -> r <> NotSupported ->
  main_state data =
  Ret (mkMainState (ProcessResult_eqb r Sucess) out [(pngProcessor, r)]).
Proof.
  intros Hpng Hr. unfold main_state, processors.
  cbn [process_loop Process out_data probes]. rewrite Hpng. cbn.
  destruct r; [contradiction|reflexivity|reflexivity].
Qed.

(** C4: a buffer of at least 8 bytes that opens with the PNG signature is
    handled by the PNG processor alone: the loop in [main] stops after
    that one call, whatever it returns, the TIFF and JPEG processors are
    not called; when [ReadPNG] fails the result is [ProcessFailed], not
    [NotSupported]. *)
Theorem png_signature_dispatch (data : list Z) :
  (8 <= length data)%nat -> take 8 data = kPNGMagicBytes ->
  (forall r out,
     PngProcessor_Process data [] = Ret (r, out) ->
     r <> NotSupported /\
     main_state data =
     Ret (mkMainState (ProcessResult_eqb r Sucess) out [(pngProcessor, r)])) /\
  (PngProcessor_Process data [] = Crash -> main_state data = Crash) /\
  (ReadPNG data = Ret None ->
   PngProcessor_Process data [] = Ret (ProcessFailed, []) /\
   main_state data =
   Ret (mkMainState false [] [(pngProcessor, ProcessFailed)]) /\
   main data = Ret UnknownFileFormat).
Proof.
  intros Hlen Hsig.
  pose proof (has_png_magic_true data Hlen Hsig) as Hmagic.
  split; [|split].
  - intros r out Hpng.
    pose proof (PngProcessor_Process_supported data [] r out Hmagic Hpng) as Hr.
    split; [exact Hr|]. apply main_state_first_probe; assumption.
  - intros Hcrash. unfold main_state, processors.
    cbn [process_loop Process out_data]. rewrite Hcrash. reflexivity.
  - intros Hread.
    assert (Hpng : PngProcessor_Process data [] = Ret (ProcessFailed, [])).
    { unfold PngProcessor_Process. rewrite Hmagic, Hread. reflexivity. }
    assert (Hst : main_state data =
                  Ret (mkMainState false [] [(pngProcessor, ProcessFailed)])).
    { apply (main_state_first_probe data ProcessFailed []);
        [exact Hpng|discriminate]. }
    split; [exact Hpng|]. split; [exact Hst|].
    unfold main. rewrite Hst. reflexivity.
Qed.

(** C9: when the buffer carries neither the PNG signature nor a TIFF
    byte-order mark and the JPEG header does not parse, each of the three
    processors returns [NotSupported], in the order PNG, TIFF, JPEG, and
    [main] ends with "Unknown file format" and exit code 2. *)
Theorem unknown_format_dispatch (data : list Z) :
  ~ ((8 <= length data)%nat /\ take 8 data = kPNGMagicBytes) ->
  ~ ((2 <= length data)%nat /\
     (take 2 data = ushort_bytes TIFF_BIGENDIAN \/
      take 2 data = ushort_bytes TIFF_LITTLEENDIAN)) ->
  ReadJpeg data = None ->
  PngProcessor_Process data [] = Ret (NotSupported, []) /\
  TiffProcessor_Process data [] = Ret (NotSupported, []) /\
  JpegProcessor_Process data [] = Ret (NotSupported, []) /\
  main_state data =
  Ret (mkMainState false []
         [(pngProcessor, NotSupported); (tiffProcessor, NotSupported);
          (jpegProcessor, NotSupported)]) /\
  main data = Ret UnknownFileFormat /\
  exit_code UnknownFileFormat = 2.
Proof.
  intros Hpng Htiff Hjpeg.
  assert (H1 : PngProcessor_Process data [] = Ret (NotSupported, [])).
  { unfold PngProcessor_Process.
    rewrite (has_png_magic_false data Hpng). reflexivity. }
  assert (H2 : TiffProcessor_Process data [] = Ret (NotSupported, [])).
  { unfold TiffProcessor_Process.
    rewrite (has_tiff_magic_false data Htiff). reflexivity. }
  assert (H3 : JpegProcessor_Process data [] = Ret (NotSupported, [])).
  { unfold JpegProcessor_Process. rewrite Hjpeg. reflexivity. }
  assert (Hst : main_state data =
                Ret (mkMainState false []
                       [(pngProcessor, NotSupported);
                        (tiffProcessor, NotSupported);
                        (jpegProcessor, NotSupported)])).
  { unfold main_state, processors.
    cbn [process_loop Process out_data probes processed].
    rewrite H1. cbn. rewrite H2. cbn. rewrite H3. reflexivity. }
  repeat (split; [assumption|]).
  split; [|reflexivity]. unfold main. rewrite Hst. reflexivity.
Qed.

(** ** Outcomes, loops and vectors *)

Lemma bind_Ret_inv {A B : Type} (m : exec A) (f : A -> exec B) (b : B) :
  m ≫= f = Ret b -> exists a, m = Ret a /\ f a = Ret b.
Proof. destruct m as [a|]; cbn; [eauto|discriminate]. Qed.

Lemma chk_int_Ret z : is_int z -> chk_int z = Ret z.
Proof.
  unfold is_int, chk_int. intros [Hlo Hhi].
  destruct (Z.leb_spec INT_MIN z); [|lia].
  destruct (Z.leb_spec z INT_MAX); [|lia]. reflexivity.
Qed.

Lemma vector_resize_Ret n :
  0 <= n -> vector_resize n = Ret (replicate (Z.to_nat n) 0).
Proof.
  intros Hn. unfold vector_resize.
  destruct (Z.ltb_spec n 0); [lia|reflexivity].
Qed.

Lemma vector_resize_inv n v :
  vector_resize n = Ret v -> 0 <= n /\ Z.of_nat (length v) = n.
Proof.
  unfold vector_resize. destruct (Z.ltb_spec n 0) as [Hn|Hn]; [discriminate|].
  intros H; inversion H; subst. rewrite length_replicate. lia.
Qed.

Lemma vector_set_inv v i x v' :
  vector_set v i x = Ret v' ->
  v' = <[Z.to_nat i := x]> v /\ 0 <= i < Z.of_nat (length v).
Proof.
  unfold vector_set.
  destruct (Z.leb_spec 0 i) as [Hlo|Hlo]; [|discriminate].
  destruct (Z.ltb_spec i (Z.of_nat (length v))) as [Hhi|Hhi]; [|discriminate].
  cbn. intros H; inversion H; subst. split; [reflexivity|lia].
Qed.

Lemma vector_set_length v i x v' :
  vector_set v i x = Ret v' -> length v' = length v.
Proof.
  intros H. apply vector_set_inv in H as [-> _]. apply length_insert.
Qed.

Lemma count_loop_preserves {St : Type} (P : St -> Prop)
    (body : Z -> St -> exec St) n i s s' :
  (forall j t t', body j t = Ret t' -> P t -> P t') ->
  count_loop n i body s = Ret s' -> P s -> P s'.
Proof.
  intros Hbody. revert i s. induction n as [|n IH]; intros i s Hrun Hs.
  - cbn in Hrun. inversion Hrun; subst. exact Hs.
  - cbn [count_loop] in Hrun.
    apply bind_Ret_inv in Hrun as (t & Hstep & Hrest).
    apply (IH (i + 1) t Hrest). exact (Hbody i s t Hstep Hs).
Qed.

Lemma for_int_preserves {St : Type} (P : St -> Prop)
    (body : Z -> St -> exec St) bound s s' :
  (forall j t t', body j t = Ret t' -> P t -> P t') ->
  for_int bound body s = Ret s' -> P s -> P s'.
Proof.
  intros Hbody. unfold for_int. apply count_loop_preserves.
  intros j t t' Hstep Ht.
  apply bind_Ret_inv in Hstep as (u & Hu & Hstep).
  apply bind_Ret_inv in Hstep as (k & _ & Hstep).
  inversion Hstep; subst. exact (Hbody j t t' Hu Ht).
Qed.

Lemma count_loop_inv {St : Type} (I : Z -> St -> Prop)
    (body : Z -> St -> exec St) n i s :
  I i s ->
  (forall j t, i <= j < i + Z.of_nat n -> I j t ->
               exists t', body j t = Ret t' /\ I (j + 1) t') ->
  exists s', count_loop n i body s = Ret s' /\ I (i + Z.of_nat n) s'.
Proof.
  revert i s. induction n as [|n IH]; intros i s Hs Hbody.
  - exists s. split; [reflexivity|]. replace (i + Z.of_nat 0) with i by lia.
    exact Hs.
  - destruct (Hbody i s ltac:(lia) Hs) as (t & Hstep & Ht).
    destruct (IH (i + 1) t Ht) as (s' & Hrun & Hs').
    { intros j u Hj Hu. apply Hbody; [lia|exact Hu]. }
    exists s'. split.
    + cbn [count_loop]. rewrite Hstep. exact Hrun.
    + replace (i + Z.of_nat (S n)) with (i + 1 + Z.of_nat n) by lia.
      exact Hs'.
Qed.

Lemma for_int_inv {St : Type} (I : Z -> St -> Prop)
    (body : Z -> St -> exec St) bound s :
  0 <= bound <= INT_MAX -> I 0 s ->
  (forall j t, 0 <= j < bound -> I j t ->
               exists t', body j t = Ret t' /\ I (j + 1) t') ->
  exists s', for_int bound body s = Ret s' /\ I bound s'.
Proof.
  intros Hb Hs Hbody. unfold for_int.
  destruct (count_loop_inv I
              (fun i s => s' ← body i s; _ ← int_add i 1; Ret s')
              (Z.to_nat bound) 0 s Hs) as (s' & Hrun & Hs').
  - intros j t Hj Ht.
    destruct (Hbody j t ltac:(lia) Ht) as (t' & Hstep & Ht').
    exists t'. split; [|exact Ht'].
    rewrite Hstep. cbn. unfold int_add. rewrite chk_int_Ret; [reflexivity|].
    unfold is_int, INT_MIN, INT_MAX in *. lia.
  - exists s'. split; [exact Hrun|].
    replace (0 + Z.of_nat (Z.to_nat bound)) with bound in Hs' by lia.
    exact Hs'.
Qed.

Lemma store_rgb_length v base x r g b v' :
  store_rgb v base x r g b = Ret v' -> length v' = length v.
Proof.
  unfold store_rgb. intros H.
  apply bind_Ret_inv in H as (t & _ & H).
  apply bind_Ret_inv in H as (i0 & _ & H).
  apply bind_Ret_inv in H as (v0 & H0 & H).
  apply bind_Ret_inv in H as (i1 & _ & H).
  apply bind_Ret_inv in H as (v1 & H1 & H).
  apply bind_Ret_inv in H as (i2 & _ & H).
  apply vector_set_length in H0, H1, H. congruence.
Qed.

Lemma memcpy_length dst base src n dst' :
  memcpy dst base src n = Ret dst' -> length dst' = length dst.
Proof.
  unfold memcpy. destruct (n <? 0); [discriminate|]. intros H.
  apply (count_loop_preserves (fun v => length v = length dst) _ _ _ _ _
           (fun j t t' Hset Ht => eq_trans (vector_set_length _ _ _ _ Hset) Ht)
           H eq_refl).
Qed.

(** Filling a vector front to back. *)
Lemma filled_replicate f n :
  0 <= n -> filled f n 0 (replicate (Z.to_nat n) 0).
Proof.
  intros Hn. split; [rewrite length_replicate; lia|]. intros i Hi. lia.
Qed.

Lemma filled_set f n k v x :
  filled f n k v -> 0 <= k < n -> x = f k ->
  exists v', vector_set v k x = Ret v' /\ filled f n (k + 1) v'.
Proof.
  intros [Hlen Hpre] Hk ->. exists (<[Z.to_nat k := f k]> v). split.
  - unfold vector_set.
    destruct (Z.leb_spec 0 k); [|lia].
    destruct (Z.ltb_spec k (Z.of_nat (length v))); [|lia]. reflexivity.
  - split; [rewrite length_insert; exact Hlen|].
    intros i Hi. destruct (Z.eq_dec i k) as [->|Hne].
    + apply list_lookup_insert_eq. lia.
    + rewrite list_lookup_insert_ne by lia. apply Hpre. lia.
Qed.

Lemma filled_store_rgb f n k v base x r g b :
  filled f n k v -> 0 <= x -> 3 * x + 2 <= INT_MAX ->
  k = base + 3 * x -> 0 <= k -> k + 3 <= n ->
  r = f k -> g = f (k + 1) -> b = f (k + 2) ->
  exists v', store_rgb v base x r g b = Ret v' /\ filled f n (k + 3) v'.
Proof.
  intros Hf Hx Hmax Hk Hk0 Hkn Hr Hg Hb.
  destruct (filled_set f n k v r Hf ltac:(lia) Hr) as (v0 & H0 & Hf0).
  destruct (filled_set f n (k + 1) v0 g Hf0 ltac:(lia) Hg) as (v1 & H1 & Hf1).
  destruct (filled_set f n (k + 1 + 1) v1 b Hf1 ltac:(lia)) as (v2 & H2 & Hf2).
  { rewrite Hb. f_equal. lia. }
  exists v2. split.
  - assert (Hint : forall j, 0 <= j <= 2 -> chk_int (3 * x + j) = Ret (3 * x + j)).
    { intros j Hj. apply chk_int_Ret.
      unfold is_int, INT_MIN, INT_MAX in *. lia. }
    unfold store_rgb, int_mul, int_add.
    rewrite chk_int_Ret by (unfold is_int, INT_MIN, INT_MAX in *; lia).
    cbn -[Z.mul Z.add]. rewrite (Hint 0) by lia. cbn -[Z.mul Z.add].
    replace (base + (3 * x + 0)) with k by lia. rewrite H0.
    cbn -[Z.mul Z.add]. rewrite (Hint 1) by lia. cbn -[Z.mul Z.add].
    replace (base + (3 * x + 1)) with (k + 1) by lia. rewrite H1.
    cbn -[Z.mul Z.add]. rewrite (Hint 2) by lia. cbn -[Z.mul Z.add].
    replace (base + (3 * x + 2)) with (k + 1 + 1) by lia. exact H2.
  - replace (k + 3) with (k + 1 + 1 + 1) by lia. exact Hf2.
Qed.

Lemma filled_memcpy f n base cnt src v :
  filled f n base v -> 0 <= base -> 0 <= cnt -> base + cnt <= n ->
  (forall i, 0 <= i < cnt -> byte_at 0 src i = f (base + i)) ->
  exists v', memcpy v base src cnt = Ret v' /\ filled f n (base + cnt) v'.
Proof.
  intros Hf Hbase Hcnt Hn Hsrc. unfold memcpy.
  destruct (Z.ltb_spec cnt 0) as [Hneg|_]; [lia|].
  destruct (count_loop_inv (fun i v => filled f n (base + i) v)
              (fun i dst => vector_set dst (base + i) (byte_at 0 src i))
              (Z.to_nat cnt) 0 v) as (v' & Hrun & Hv').
  - replace (base + 0) with base by lia. exact Hf.
  - intros j t Hj Ht.
    destruct (filled_set f n (base + j) t (byte_at 0 src j) Ht ltac:(lia))
      as (t' & Hset & Ht').
    { apply Hsrc. lia. }
    exists t'. split; [exact Hset|].
    replace (base + (j + 1)) with (base + j + 1) by lia. exact Ht'.
  - exists v'. split; [exact Hrun|].
    replace (base + (0 + Z.of_nat (Z.to_nat cnt))) with (base + cnt) in Hv' by lia.
    exact Hv'.
Qed.

(** ** The pixel loops *)

Lemma chk_int_inv z z' : chk_int z = Ret z' -> z' = z /\ is_int z.
Proof.
  unfold chk_int, is_int.
  destruct (Z.leb_spec INT_MIN z) as [Hlo|Hlo]; [|discriminate].
  destruct (Z.leb_spec z INT_MAX) as [Hhi|Hhi]; [|discriminate].
  cbn. intros H; inversion H; subst. lia.
Qed.

Lemma to_int32_small z : 0 <= z <= INT_MAX -> to_int32 z = z.
Proof.
  unfold to_int32, INT_MAX. intros Hz.
  rewrite Z.mod_small by (change (2 ^ 31) with 2147483648;
                          change (2 ^ 32) with 4294967296; lia).
  lia.
Qed.

Lemma pixel_index w x y k :
  0 < w -> 0 <= x < w -> 0 <= k < 3 ->
  (3 * (y * w + x) + k) mod 3 = k /\
  (3 * (y * w + x) + k) / 3 = y * w + x /\
  (y * w + x) / w = y /\
  (y * w + x) mod w = x.
Proof.
  intros Hw Hx Hk.
  assert (E1 : 3 * (y * w + x) + k = (y * w + x) * 3 + k) by lia.
  assert (E2 : y * w + x = x + y * w) by lia.
  repeat split.
  - rewrite E1, Z.add_comm, Z.mod_add by lia. apply Z.mod_small. lia.
  - rewrite E1, Z.add_comm, Z.div_add by lia.
    rewrite Z.div_small by lia. lia.
  - rewrite E2, Z.div_add by lia. rewrite Z.div_small by lia. lia.
  - rewrite E2, Z.mod_add by lia. apply Z.mod_small. lia.
Qed.

(** Rows of pixels written three bytes at a time: the shape the decoding
    loops share. *)
Lemma pixel_rows_filled (f : Z -> Z) (w h : Z)
    (body : Z -> Z -> Z -> list Z -> exec (list Z)) (v0 : list Z) :
  1 <= w -> 0 <= h -> 3 * w * h <= INT_MAX ->
  filled f (3 * w * h) 0 v0 ->
  (forall y x v, 0 <= y < h -> 0 <= x < w ->
     body y (3 * y * w) x v =
     store_rgb v (3 * y * w) x
       (f (3 * (y * w + x) + 0)) (f (3 * (y * w + x) + 1))
       (f (3 * (y * w + x) + 2))) ->
  exists v,
    for_int h (fun y rgb =>
      t ← int_mul 3 y; row_out ← int_mul t w;
      for_int w (body y row_out) rgb) v0 = Ret v /\
    filled f (3 * w * h) (3 * w * h) v.
Proof.
  intros Hw Hh Hmax Hv0 Hbody.
  destruct (for_int_inv (fun y v => filled f (3 * w * h) (3 * y * w) v)
              (fun y rgb => t ← int_mul 3 y; row_out ← int_mul t w;
                            for_int w (body y row_out) rgb)
              h v0) as (v & Hrun & Hv).
  - unfold INT_MAX in *. nia.
  - replace (3 * 0 * w) with 0 by lia. exact Hv0.
  - intros y v Hy Hfill.
    unfold int_mul.
    rewrite chk_int_Ret by (unfold is_int, INT_MIN, INT_MAX in *; nia).
    cbn -[Z.mul Z.add].
    rewrite chk_int_Ret by (unfold is_int, INT_MIN, INT_MAX in *; nia).
    cbn -[Z.mul Z.add].
    destruct (for_int_inv
                (fun x u => filled f (3 * w * h) (3 * y * w + 3 * x) u)
                (body y (3 * y * w)) w v) as (u & Hrow & Hu).
    + unfold INT_MAX in *. nia.
    + replace (3 * y * w + 3 * 0) with (3 * y * w) by lia. exact Hfill.
    + intros x u Hx Hfu. rewrite (Hbody y x u Hy Hx).
      destruct (filled_store_rgb f (3 * w * h) (3 * y * w + 3 * x) u
                  (3 * y * w) x
                  (f (3 * (y * w + x) + 0)) (f (3 * (y * w + x) + 1))
                  (f (3 * (y * w + x) + 2)) Hfu) as (u' & Hst & Hfu');
        try (unfold INT_MAX in *; nia); try (f_equal; lia).
      exists u'. split; [exact Hst|].
      replace (3 * y * w + 3 * (x + 1)) with (3 * y * w + 3 * x + 3) by lia.
      exact Hfu'.
    + exists u. split; [exact Hrow|].
      replace (3 * (y + 1) * w) with (3 * y * w + 3 * w) by lia. exact Hu.
  - exists v. split; [exact Hrun|].
    replace (3 * w * h) with (3 * h * w) at 2 by lia. exact Hv.
Qed.

Lemma pixel_rows_length (w h : Z)
    (body : Z -> Z -> Z -> list Z -> exec (list Z)) (v0 v : list Z) :
  (forall y base x u u', body y base x u = Ret u' -> length u' = length u) ->
  for_int h (fun y rgb =>
    t ← int_mul 3 y; row_out ← int_mul t w;
    for_int w (body y row_out) rgb) v0 = Ret v ->
  length v = length v0.
Proof.
  intros Hbody Hrun.
  refine (for_int_preserves (fun u => length u = length v0) _ h v0 v _
            Hrun eq_refl).
  intros y t t' Hstep Ht.
  apply bind_Ret_inv in Hstep as (a & _ & Hstep).
  apply bind_Ret_inv in Hstep as (b & _ & Hstep).
  refine (for_int_preserves (fun u => length u = length v0) _ w t t' _
            Hstep Ht).
  intros x u u' Hpix Hu. rewrite (Hbody _ _ _ _ _ Hpix). exact Hu.
Qed.

(** ** ReadPNG *)

Lemma spec_png_byte_pixel info x y k :
  0 < png_get_image_width info -> 0 <= x < png_get_image_width info ->
  0 <= k < 3 ->
  spec_png_byte cfg info (3 * (y * png_get_image_width info + x) + k) =
  default 0
    (spec_png_pixel cfg (png_get_channels info)
       (default [] (png_get_rows info !! Z.to_nat y)) x !! Z.to_nat k).
Proof.
  intros Hw Hx Hk.
  destruct (pixel_index (png_get_image_width info) x y k Hw Hx Hk)
    as (E1 & E2 & E3 & E4).
  unfold spec_png_byte. cbv zeta. rewrite E2, E3, E4, E1. reflexivity.
Qed.

Lemma ReadPNG_gray_filled info v0 :
  1 <= png_get_image_width info -> 0 <= png_get_image_height info ->
  3 * png_get_image_width info * png_get_image_height info <= INT_MAX ->
  png_get_channels info = 1 ->
  filled (spec_png_byte cfg info) (3 * png_get_image_width info * png_get_image_height info) 0 v0 ->
  exists v,
    ReadPNG_gray info (png_get_image_width info) (png_get_image_height info) v0 = Ret v /\
    filled (spec_png_byte cfg info) (3 * png_get_image_width info * png_get_image_height info)
      (3 * png_get_image_width info * png_get_image_height info) v.
Proof.
  intros Hw Hh Hmax Hc Hv0.
  set (w := png_get_image_width info) in *. set (h := png_get_image_height info) in *.
  set (n := 3 * w * h) in *. unfold ReadPNG_gray.
  apply (pixel_rows_filled (spec_png_byte cfg info) w h
           (fun y row_out x rgb =>
              let gray :=
                byte_at 0 (default [] (png_get_rows info !! Z.to_nat y)) x in
              store_rgb rgb row_out x gray gray gray));
    try assumption.
  intros y x v Hy Hx. cbv zeta. subst w.
  rewrite !spec_png_byte_pixel by lia. rewrite Hc. reflexivity.
Qed.

Lemma ReadPNG_gray_alpha_filled info v0 :
  1 <= png_get_image_width info -> 0 <= png_get_image_height info ->
  3 * png_get_image_width info * png_get_image_height info <= INT_MAX ->
  png_get_channels info = 2 ->
  filled (spec_png_byte cfg info) (3 * png_get_image_width info * png_get_image_height info) 0 v0 ->
  exists v,
    ReadPNG_gray_alpha info (png_get_image_width info) (png_get_image_height info) v0 = Ret v /\
    filled (spec_png_byte cfg info) (3 * png_get_image_width info * png_get_image_height info)
      (3 * png_get_image_width info * png_get_image_height info) v.
Proof.
  intros Hw Hh Hmax Hc Hv0.
  set (w := png_get_image_width info) in *. set (h := png_get_image_height info) in *.
  set (n := 3 * w * h) in *. unfold ReadPNG_gray_alpha.
  apply (pixel_rows_filled (spec_png_byte cfg info) w h
           (fun y row_out x rgb =>
              let row_in := default [] (png_get_rows info !! Z.to_nat y) in
              i ← int_mul 2 x; j ← int_add i 1;
              let gray := Blend cfg (byte_at 0 row_in i) (byte_at 0 row_in j) in
              store_rgb rgb row_out x gray gray gray));
    try assumption.
  intros y x v Hy Hx. cbv zeta. unfold int_mul, int_add.
  rewrite chk_int_Ret by (subst n; unfold is_int, INT_MIN, INT_MAX in *; nia).
  cbn -[Z.mul Z.add].
  rewrite chk_int_Ret by (subst n; unfold is_int, INT_MIN, INT_MAX in *; nia).
  cbn -[Z.mul Z.add]. subst w.
  rewrite !spec_png_byte_pixel by lia. rewrite Hc. reflexivity.
Qed.

Lemma ReadPNG_rgba_filled info v0 :
  1 <= png_get_image_width info -> 0 <= png_get_image_height info ->
  3 * png_get_image_width info * png_get_image_height info <= INT_MAX ->
  png_get_channels info = 4 -> 4 * png_get_image_width info <= INT_MAX ->
  filled (spec_png_byte cfg info) (3 * png_get_image_width info * png_get_image_height info) 0 v0 ->
  exists v,
    ReadPNG_rgba info (png_get_image_width info) (png_get_image_height info) v0 = Ret v /\
    filled (spec_png_byte cfg info) (3 * png_get_image_width info * png_get_image_height info)
      (3 * png_get_image_width info * png_get_image_height info) v.
Proof.
  intros Hw Hh Hmax Hc H4 Hv0.
  set (w := png_get_image_width info) in *. set (h := png_get_image_height info) in *.
  set (n := 3 * w * h) in *. unfold ReadPNG_rgba.
  apply (pixel_rows_filled (spec_png_byte cfg info) w h
           (fun y row_out x rgb =>
              let row_in := default [] (png_get_rows info !! Z.to_nat y) in
              i ← int_mul 4 x;
              i3 ← int_add i 3;
              let alpha := byte_at 0 row_in i3 in
              i0 ← int_add i 0;
              let r := Blend cfg (byte_at 0 row_in i0) alpha in
              i1 ← int_add i 1;
              let g := Blend cfg (byte_at 0 row_in i1) alpha in
              i2 ← int_add i 2;
              let b := Blend cfg (byte_at 0 row_in i2) alpha in
              store_rgb rgb row_out x r g b));
    try assumption.
  intros y x v Hy Hx. cbv zeta. unfold int_mul, int_add.
  assert (Hint : forall j, 0 <= j <= 3 -> chk_int (4 * x + j) = Ret (4 * x + j)).
  { intros j Hj. apply chk_int_Ret.
    unfold is_int, INT_MIN, INT_MAX in *. lia. }
  rewrite chk_int_Ret by (unfold is_int, INT_MIN, INT_MAX in *; lia).
  cbn -[Z.mul Z.add]. rewrite (Hint 3) by lia.
  cbn -[Z.mul Z.add]. rewrite (Hint 0) by lia.
  cbn -[Z.mul Z.add]. rewrite (Hint 1) by lia.
  cbn -[Z.mul Z.add]. rewrite (Hint 2) by lia.
  cbn -[Z.mul Z.add]. subst w.
  rewrite !spec_png_byte_pixel by lia. rewrite Hc.
  replace (4 * x + 0) with (4 * x) by lia. reflexivity.
Qed.

Lemma spec_png_byte_rgb_row info y i :
  1 <= png_get_image_width info ->
  png_get_channels info = 3 -> 0 <= i < 3 * png_get_image_width info ->
  byte_at 0 (default [] (png_get_rows info !! Z.to_nat y)) i =
  spec_png_byte cfg info (3 * y * png_get_image_width info + i).
Proof.
  intros Hw Hc Hi. set (w := png_get_image_width info) in *.
  pose proof (Z.div_mod i 3 ltac:(lia)) as Hdm.
  pose proof (Z.mod_pos_bound i 3 ltac:(lia)) as Hk.
  assert (Hx : 0 <= i / 3 < w).
  { split; [apply Z.div_pos; lia|apply Z.div_lt_upper_bound; lia]. }
  replace (3 * y * w + i) with (3 * (y * w + i / 3) + i mod 3) by lia.
  subst w. rewrite spec_png_byte_pixel by lia. rewrite Hc.
  unfold spec_png_pixel. cbn [Z.eqb Pos.eqb].
  assert (Hcases : i mod 3 = 0 \/ i mod 3 = 1 \/ i mod 3 = 2) by lia.
  destruct Hcases as [E|[E|E]]; rewrite E;
    [change (Z.to_nat 0) with 0%nat|change (Z.to_nat 1) with 1%nat
    |change (Z.to_nat 2) with 2%nat];
    cbn -[byte_at Z.mul Z.add Z.div]; f_equal; lia.
Qed.

Lemma ReadPNG_rgb_filled info v0 :
  1 <= png_get_image_width info -> 0 <= png_get_image_height info ->
  3 * png_get_image_width info * png_get_image_height info <= INT_MAX ->
  png_get_channels info = 3 ->
  filled (spec_png_byte cfg info) (3 * png_get_image_width info * png_get_image_height info) 0 v0 ->
  exists v,
    ReadPNG_rgb info (png_get_image_width info) (png_get_image_height info) v0 = Ret v /\
    filled (spec_png_byte cfg info) (3 * png_get_image_width info * png_get_image_height info)
      (3 * png_get_image_width info * png_get_image_height info) v.
Proof.
  intros Hw Hh Hmax Hc Hv0.
  set (w := png_get_image_width info) in *. set (h := png_get_image_height info) in *.
  set (n := 3 * w * h) in *. unfold ReadPNG_rgb.
  destruct (for_int_inv
              (fun y v => filled (spec_png_byte cfg info) n (3 * y * w) v)
              (fun y rgb =>
                 let row_in := default [] (png_get_rows info !! Z.to_nat y) in
                 t ← int_mul 3 y; row_out ← int_mul t w;
                 cnt ← int_mul 3 w;
                 memcpy rgb row_out row_in cnt) h v0) as (v & Hrun & Hv).
  - subst n. unfold INT_MAX in *. nia.
  - replace (3 * 0 * w) with 0 by lia. exact Hv0.
  - intros y v Hy Hfill. cbv zeta. unfold int_mul.
    rewrite chk_int_Ret by (subst n; unfold is_int, INT_MIN, INT_MAX in *; nia).
    cbn -[Z.mul Z.add].
    rewrite chk_int_Ret by (subst n; unfold is_int, INT_MIN, INT_MAX in *; nia).
    cbn -[Z.mul Z.add].
    rewrite chk_int_Ret by (subst n; unfold is_int, INT_MIN, INT_MAX in *; nia).
    cbn -[Z.mul Z.add].
    destruct (filled_memcpy (spec_png_byte cfg info) n (3 * y * w) (3 * w)
                (default [] (png_get_rows info !! Z.to_nat y)) v Hfill)
      as (v' & Hcp & Hv'); try (subst n; nia).
    { intros i Hi. apply spec_png_byte_rgb_row; assumption. }
    exists v'. split; [exact Hcp|].
    replace (3 * (y + 1) * w) with (3 * y * w + 3 * w) by lia. exact Hv'.
  - exists v. split; [exact Hrun|].
    replace n with (3 * h * w) at 2 by (subst n; lia). exact Hv.
Qed.

Lemma spec_png_pixel_lookup components row x k :
  0 <= k < 3 ->
  spec_png_pixel cfg components row x !! Z.to_nat k =
  Some (default 0 (spec_png_pixel cfg components row x !! Z.to_nat k)).
Proof.
  intros Hk.
  assert (Hlen : length (spec_png_pixel cfg components row x) = 3%nat).
  { unfold spec_png_pixel.
    destruct (components =? 1); [reflexivity|].
    destruct (components =? 2); [reflexivity|].
    destruct (components =? 3); reflexivity. }
  destruct (lookup_lt_is_Some_2 (spec_png_pixel cfg components row x)
              (Z.to_nat k) ltac:(lia)) as [z Hz].
  rewrite Hz. reflexivity.
Qed.

Lemma ReadPNG_resized data info :
  png_read_png data = Some info ->
  1 <= png_get_image_width info -> 1 <= png_get_image_height info ->
  3 * png_get_image_width info * png_get_image_height info <= INT_MAX ->
  ReadPNG data =
  let xsize := png_get_image_width info in
  let ysize := png_get_image_height info in
  let rgb := replicate (Z.to_nat (3 * xsize * ysize)) 0 in
  let components := png_get_channels info in
  if components =? 1 then
    rgb ← ReadPNG_gray info xsize ysize rgb;
    Ret (Some (mkImage xsize ysize rgb))
  else if components =? 2 then
    rgb ← ReadPNG_gray_alpha info xsize ysize rgb;
    Ret (Some (mkImage xsize ysize rgb))
  else if components =? 3 then
    rgb ← ReadPNG_rgb info xsize ysize rgb;
    Ret (Some (mkImage xsize ysize rgb))
  else if components =? 4 then
    rgb ← ReadPNG_rgba info xsize ysize rgb;
    Ret (Some (mkImage xsize ysize rgb))
  else Ret None.
Proof.
  intros Hread Hw Hh Hmax. unfold ReadPNG. rewrite Hread.
  rewrite !to_int32_small by (unfold INT_MAX in *; nia).
  unfold int_mul.
  rewrite chk_int_Ret by (unfold is_int, INT_MIN, INT_MAX in *; nia).
  cbn -[Z.mul Z.add Z.eqb].
  rewrite chk_int_Ret by (unfold is_int, INT_MIN, INT_MAX in *; nia).
  cbn -[Z.mul Z.add Z.eqb].
  rewrite vector_resize_Ret by nia. reflexivity.
Qed.

(** C8: [ReadPNG] succeeds exactly for 1, 2, 3 and 4 channels and returns
    false for any other count; the three bytes of every pixel are the gray
    value replicated (1), the gray value blended with the second channel
    and replicated (2), the row bytes copied (3), and R, G, B each blended
    with the fourth channel (4). *)
Theorem ReadPNG_channels (data : list Z) (info : png_info) :
  png_read_png data = Some info ->
  1 <= png_get_image_width info -> 1 <= png_get_image_height info ->
  3 * png_get_image_width info * png_get_image_height info <= INT_MAX ->
  4 * png_get_image_width info <= INT_MAX ->
  (~ 1 <= png_get_channels info <= 4 -> ReadPNG data = Ret None) /\
  (1 <= png_get_channels info <= 4 ->
   exists pixels,
     ReadPNG data =
     Ret (Some (mkImage (png_get_image_width info)
                        (png_get_image_height info) pixels)) /\
     forall x y k,
       0 <= x < png_get_image_width info ->
       0 <= y < png_get_image_height info -> 0 <= k < 3 ->
       pixels !! Z.to_nat (3 * (y * png_get_image_width info + x) + k) =
       spec_png_pixel cfg (png_get_channels info)
         (default [] (png_get_rows info !! Z.to_nat y)) x !! Z.to_nat k).
Proof.
  intros Hread Hw Hh Hmax H4.
  rewrite (ReadPNG_resized data info Hread Hw Hh Hmax). cbv zeta.
  set (w := png_get_image_width info) in *.
  set (h := png_get_image_height info) in *.
  set (c := png_get_channels info) in *.
  split.
  - intros Hc.
    destruct (Z.eqb_spec c 1); [lia|]. destruct (Z.eqb_spec c 2); [lia|].
    destruct (Z.eqb_spec c 3); [lia|]. destruct (Z.eqb_spec c 4); [lia|].
    reflexivity.
  - intros Hc.
    pose proof (filled_replicate (spec_png_byte cfg info) (3 * w * h)
                  ltac:(nia)) as Hv0.
    assert (Hdec : exists v,
      (if c =? 1 then
         rgb ← ReadPNG_gray info w h (replicate (Z.to_nat (3 * w * h)) 0);
         Ret (Some (mkImage w h rgb))
       else if c =? 2 then
         rgb ← ReadPNG_gray_alpha info w h (replicate (Z.to_nat (3 * w * h)) 0);
         Ret (Some (mkImage w h rgb))
       else if c =? 3 then
         rgb ← ReadPNG_rgb info w h (replicate (Z.to_nat (3 * w * h)) 0);
         Ret (Some (mkImage w h rgb))
       else if c =? 4 then
         rgb ← ReadPNG_rgba info w h (replicate (Z.to_nat (3 * w * h)) 0);
         Ret (Some (mkImage w h rgb))
       else Ret None) = Ret (Some (mkImage w h v)) /\
      filled (spec_png_byte cfg info) (3 * w * h) (3 * w * h) v).
    { destruct (Z.eqb_spec c 1) as [E1|N1].
      { destruct (ReadPNG_gray_filled info _ Hw ltac:(lia) Hmax E1 Hv0)
          as (v & Hrun & Hv).
        exists v. fold w h in Hrun. rewrite Hrun. split; [reflexivity|exact Hv]. }
      destruct (Z.eqb_spec c 2) as [E2|N2].
      { destruct (ReadPNG_gray_alpha_filled info _ Hw ltac:(lia) Hmax E2 Hv0)
          as (v & Hrun & Hv).
        exists v. fold w h in Hrun. rewrite Hrun. split; [reflexivity|exact Hv]. }
      destruct (Z.eqb_spec c 3) as [E3|N3].
      { destruct (ReadPNG_rgb_filled info _ Hw ltac:(lia) Hmax E3 Hv0)
          as (v & Hrun & Hv).
        exists v. fold w h in Hrun. rewrite Hrun. split; [reflexivity|exact Hv]. }
      destruct (Z.eqb_spec c 4) as [E4|N4]; [|lia].
      destruct (ReadPNG_rgba_filled info _ Hw ltac:(lia) Hmax E4 H4 Hv0)
        as (v & Hrun & Hv).
      exists v. fold w h in Hrun. rewrite Hrun. split; [reflexivity|exact Hv]. }
    destruct Hdec as (v & Hrun & [Hlen Hv]).
    exists v. split; [exact Hrun|].
    intros x y k Hx Hy Hk.
    rewrite Hv by nia.
    subst w. rewrite spec_png_byte_pixel by lia.
    symmetry. apply spec_png_pixel_lookup. exact Hk.
Qed.

(** ** The size of the decoded buffer *)

Lemma ReadPNG_gray_length info xs ys v0 v :
  ReadPNG_gray info xs ys v0 = Ret v -> length v = length v0.
Proof.
  unfold ReadPNG_gray.
  apply (pixel_rows_length xs ys
           (fun y row_out x rgb =>
              let gray :=
                byte_at 0 (default [] (png_get_rows info !! Z.to_nat y)) x in
              store_rgb rgb row_out x gray gray gray)).
  intros y base x u u' H. exact (store_rgb_length _ _ _ _ _ _ _ H).
Qed.

Lemma ReadPNG_gray_alpha_length info xs ys v0 v :
  ReadPNG_gray_alpha info xs ys v0 = Ret v -> length v = length v0.
Proof.
  unfold ReadPNG_gray_alpha.
  apply (pixel_rows_length xs ys
           (fun y row_out x rgb =>
              let row_in := default [] (png_get_rows info !! Z.to_nat y) in
              i ← int_mul 2 x; j ← int_add i 1;
              let gray := Blend cfg (byte_at 0 row_in i) (byte_at 0 row_in j) in
              store_rgb rgb row_out x gray gray gray)).
  intros y base x u u' H. cbv zeta in H.
  apply bind_Ret_inv in H as (i & _ & H).
  apply bind_Ret_inv in H as (j & _ & H).
  exact (store_rgb_length _ _ _ _ _ _ _ H).
Qed.

Lemma ReadPNG_rgb_length info xs ys v0 v :
  ReadPNG_rgb info xs ys v0 = Ret v -> length v = length v0.
Proof.
  unfold ReadPNG_rgb. intros Hrun.
  refine (for_int_preserves (fun u => length u = length v0) _ ys v0 v _
            Hrun eq_refl).
  intros y t t' Hstep Ht. cbv zeta in Hstep.
  apply bind_Ret_inv in Hstep as (a & _ & Hstep).
  apply bind_Ret_inv in Hstep as (b & _ & Hstep).
  apply bind_Ret_inv in Hstep as (c & _ & Hstep).
  rewrite (memcpy_length _ _ _ _ _ Hstep). exact Ht.
Qed.

Lemma ReadPNG_rgba_length info xs ys v0 v :
  ReadPNG_rgba info xs ys v0 = Ret v -> length v = length v0.
Proof.
  unfold ReadPNG_rgba.
  apply (pixel_rows_length xs ys
           (fun y row_out x rgb =>
              let row_in := default [] (png_get_rows info !! Z.to_nat y) in
              i ← int_mul 4 x;
              i3 ← int_add i 3;
              let alpha := byte_at 0 row_in i3 in
              i0 ← int_add i 0;
              let r := Blend cfg (byte_at 0 row_in i0) alpha in
              i1 ← int_add i 1;
              let g := Blend cfg (byte_at 0 row_in i1) alpha in
              i2 ← int_add i 2;
              let b := Blend cfg (byte_at 0 row_in i2) alpha in
              store_rgb rgb row_out x r g b)).
  intros y base x u u' H. cbv zeta in H.
  apply bind_Ret_inv in H as (i & _ & H).
  apply bind_Ret_inv in H as (i3 & _ & H).
  apply bind_Ret_inv in H as (i0 & _ & H).
  apply bind_Ret_inv in H as (i1 & _ & H).
  apply bind_Ret_inv in H as (i2 & _ & H).
  exact (store_rgb_length _ _ _ _ _ _ _ H).
Qed.

Lemma ReadTIFF_copy_length pixels width height xs v0 v :
  ReadTIFF_copy pixels width height xs v0 = Ret v -> length v = length v0.
Proof.
  unfold ReadTIFF_copy.
  apply (pixel_rows_length xs height
           (fun y row_out x rgb =>
              let row_in := to_uint32 (y * width) in
              store_rgb rgb row_out x
                (pixel_byte pixels row_in x 0)
                (pixel_byte pixels row_in x 1)
                (pixel_byte pixels row_in x 2))).
  intros y base x u u' H. exact (store_rgb_length _ _ _ _ _ _ _ H).
Qed.

Lemma ReadTIFF_blend_length pixels width height xs v0 v :
  ReadTIFF_blend pixels width height xs v0 = Ret v -> length v = length v0.
Proof.
  unfold ReadTIFF_blend.
  apply (pixel_rows_length xs height
           (fun y row_out x rgb =>
              let row_in := to_uint32 (y * width) in
              let alpha := pixel_byte pixels row_in x 4 in
              store_rgb rgb row_out x
                (Blend cfg (pixel_byte pixels row_in x 0) alpha)
                (Blend cfg (pixel_byte pixels row_in x 1) alpha)
                (Blend cfg (pixel_byte pixels row_in x 2) alpha))).
  intros y base x u u' H. exact (store_rgb_length _ _ _ _ _ _ _ H).
Qed.

Lemma resized_length (xs ys : Z) (k : list Z -> exec (option Image))
    (img : Image) :
  (t ← int_mul 3 xs; n ← int_mul t ys; rgb ← vector_resize n; k rgb)
  = Ret (Some img) ->
  exists v0, Z.of_nat (length v0) = 3 * xs * ys /\ k v0 = Ret (Some img).
Proof.
  intros H.
  apply bind_Ret_inv in H as (t & Ht & H).
  apply bind_Ret_inv in H as (n & Hn & H).
  apply bind_Ret_inv in H as (v & Hv & H).
  apply chk_int_inv in Ht as [-> _]. apply chk_int_inv in Hn as [-> _].
  apply vector_resize_inv in Hv as [_ Hlen].
  exists v. split; [exact Hlen|exact H].
Qed.

Lemma ReadPNG_length data img :
  ReadPNG data = Ret (Some img) ->
  Z.of_nat (length (rgb img)) = 3 * xsize img * ysize img.
Proof.
  unfold ReadPNG. destruct (png_read_png data) as [info|]; [|discriminate].
  cbv zeta. intros H.
  apply resized_length in H as (v0 & Hlen & H).
  destruct (png_get_channels info =? 1).
  { apply bind_Ret_inv in H as (v & Hv & H). inversion H; subst img.
    cbn [rgb xsize ysize]. rewrite (ReadPNG_gray_length _ _ _ _ _ Hv).
    exact Hlen. }
  destruct (png_get_channels info =? 2).
  { apply bind_Ret_inv in H as (v & Hv & H). inversion H; subst img.
    cbn [rgb xsize ysize]. rewrite (ReadPNG_gray_alpha_length _ _ _ _ _ Hv).
    exact Hlen. }
  destruct (png_get_channels info =? 3).
  { apply bind_Ret_inv in H as (v & Hv & H). inversion H; subst img.
    cbn [rgb xsize ysize]. rewrite (ReadPNG_rgb_length _ _ _ _ _ Hv).
    exact Hlen. }
  destruct (png_get_channels info =? 4); [|discriminate].
  apply bind_Ret_inv in H as (v & Hv & H). inversion H; subst img.
  cbn [rgb xsize ysize]. rewrite (ReadPNG_rgba_length _ _ _ _ _ Hv).
  exact Hlen.
Qed.

Lemma ReadTIFF_length data img :
  ReadTIFF data = Ret (Some img) ->
  Z.of_nat (length (rgb img)) = 3 * xsize img * ysize img.
Proof.
  unfold ReadTIFF. destruct (TIFFClientOpen data) as [tif|]; [|discriminate].
  cbv zeta. destruct (tiff_RGBAImage tif) as [pixels|]; [|discriminate].
  intros H.
  apply resized_length in H as (v0 & Hlen & H).
  apply bind_Ret_inv in H as (v & Hv & H). inversion H; subst img.
  cbn [rgb xsize ysize].
  destruct (negb (tiff_SamplesPerPixel tif =? 4)).
  - rewrite (ReadTIFF_copy_length _ _ _ _ _ _ Hv). exact Hlen.
  - rewrite (ReadTIFF_blend_length _ _ _ _ _ _ Hv). exact Hlen.
Qed.

(** C5: an image the PNG path or the TIFF path decodes carries a pixel
    buffer of exactly [3 * xsize * ysize] bytes. *)
Theorem decoded_buffer_length (data : list Z) (img : Image) :
  ReadPNG data = Ret (Some img) \/ ReadTIFF data = Ret (Some img) ->
  Z.of_nat (length (rgb img)) = 3 * xsize img * ysize img.
Proof.
  intros [H|H]; [exact (ReadPNG_length data img H)|
                 exact (ReadTIFF_length data img H)].
Qed.

(** ** ReadTIFF with four samples per pixel *)

Lemma to_uint32_small z : 0 <= z <= INT_MAX -> to_uint32 z = z.
Proof.
  unfold to_uint32, INT_MAX. intros Hz. apply Z.mod_small.
  change (2 ^ 32) with 4294967296. lia.
Qed.

Lemma ReadTIFF_blend_filled pixels width height v0 :
  1 <= width -> 0 <= height -> 3 * width * height <= INT_MAX ->
  filled (ReadTIFF_blend_byte pixels) (3 * width * height) 0 v0 ->
  exists v,
    ReadTIFF_blend pixels width height width v0 = Ret v /\
    filled (ReadTIFF_blend_byte pixels) (3 * width * height)
      (3 * width * height) v.
Proof.
  intros Hw Hh Hmax Hv0. unfold ReadTIFF_blend.
  apply (pixel_rows_filled (ReadTIFF_blend_byte pixels) width height
           (fun y row_out x rgb =>
              let row_in := to_uint32 (y * width) in
              let alpha := pixel_byte pixels row_in x 4 in
              store_rgb rgb row_out x
                (Blend cfg (pixel_byte pixels row_in x 0) alpha)
                (Blend cfg (pixel_byte pixels row_in x 1) alpha)
                (Blend cfg (pixel_byte pixels row_in x 2) alpha)));
    try assumption.
  intros y x v Hy Hx. cbv zeta.
  rewrite to_uint32_small by (unfold INT_MAX in *; nia).
  unfold ReadTIFF_blend_byte, pixel_byte.
  destruct (pixel_index width x y 0 ltac:(lia) Hx ltac:(lia)) as (A0 & B0 & _).
  destruct (pixel_index width x y 1 ltac:(lia) Hx ltac:(lia)) as (A1 & B1 & _).
  destruct (pixel_index width x y 2 ltac:(lia) Hx ltac:(lia)) as (A2 & B2 & _).
  rewrite A0, B0, A1, B1, A2, B2. reflexivity.
Qed.

(** Every pixel of a four-sample raster is blended with the byte at offset
    4 from its address, the first byte of the pixel after it. *)
Lemma ReadTIFF_blend_pixels data tif pixels :
  TIFFClientOpen data = Some tif -> tiff_RGBAImage tif = Some pixels ->
  tiff_SamplesPerPixel tif = 4 ->
  1 <= tiff_ImageWidth tif -> 1 <= tiff_ImageLength tif ->
  3 * tiff_ImageWidth tif * tiff_ImageLength tif <= INT_MAX ->
  exists v,
    ReadTIFF data =
    Ret (Some (mkImage (tiff_ImageWidth tif) (tiff_ImageLength tif) v)) /\
    forall p k,
      0 <= p < tiff_ImageWidth tif * tiff_ImageLength tif -> 0 <= k < 3 ->
      v !! Z.to_nat (3 * p + k) =
      Some (Blend cfg (byte_at past_raster pixels (4 * p + k))
                      (byte_at past_raster pixels (4 * p + 4))).
Proof.
  intros Hopen Hraster Hspp Hw Hh Hmax.
  unfold ReadTIFF. rewrite Hopen. cbv zeta. rewrite Hraster, Hspp.
  rewrite !to_int32_small by (unfold INT_MAX in *; nia).
  unfold int_mul.
  rewrite chk_int_Ret by (unfold is_int, INT_MIN, INT_MAX in *; nia).
  cbn -[Z.mul Z.add].
  rewrite chk_int_Ret by (unfold is_int, INT_MIN, INT_MAX in *; nia).
  cbn -[Z.mul Z.add].
  rewrite vector_resize_Ret by nia. cbn -[Z.mul Z.add].
  pose proof (filled_replicate (ReadTIFF_blend_byte pixels)
                (3 * tiff_ImageWidth tif * tiff_ImageLength tif)
                ltac:(nia)) as Hv0.
  destruct (ReadTIFF_blend_filled pixels (tiff_ImageWidth tif)
              (tiff_ImageLength tif) _ Hw ltac:(lia) Hmax Hv0)
    as (v & Hrun & [_ Hv]).
  rewrite Hrun. exists v. split; [reflexivity|].
  intros p k Hp Hk. rewrite Hv by nia.
  unfold ReadTIFF_blend_byte, pixel_byte. f_equal.
  replace (3 * p + k) with (k + p * 3) by lia.
  rewrite Z.div_add, Z.mod_add by lia.
  rewrite Z.div_small, Z.mod_small by lia.
  f_equal; f_equal; lia.
Qed.

(** ** The in-memory file behind libtiff *)

Lemma copy_from_Ret src off n :
  0 <= off -> 0 <= n -> off + n <= Z.of_nat (length src) ->
  copy_from src off n =
  Ret (take (Z.to_nat n) (drop (Z.to_nat off) src)).
Proof.
  intros Hoff Hn Hend. unfold copy_from.
  destruct (Z.ltb_spec n 0) as [Hneg|_]; [lia|].
  destruct (Z.leb_spec 0 off) as [_|Hneg]; [|lia].
  destruct (Z.leb_spec (off + n) (Z.of_nat (length src))) as [_|Hover];
    [reflexivity|lia].
Qed.

Lemma tiff_Read_Ret io size :
  io_wf io -> 0 <= size ->
  tiff_Read io size =
  Ret (mkTiffIo (io_data io) (io_size io)
         (io_fp io + Z.min size (io_size io - io_fp io)),
       take (Z.to_nat (Z.min size (io_size io - io_fp io)))
            (drop (Z.to_nat (io_fp io)) (io_data io)),
       Z.min size (io_size io - io_fp io)).
Proof.
  intros [Hsize Hfp] Hn. unfold tiff_Read.
  assert (Hmin : (if io_size io - io_fp io <? size
                  then io_size io - io_fp io else size) =
                 Z.min size (io_size io - io_fp io)).
  { destruct (Z.ltb_spec (io_size io - io_fp io) size); lia. }
  rewrite Hmin. rewrite copy_from_Ret by lia. reflexivity.
Qed.

Lemma take_clamped (l : list Z) n t :
  0 <= n -> 0 <= t <= Z.of_nat (length l) ->
  take (Z.to_nat (Z.min n (Z.of_nat (length l) - t))) (drop (Z.to_nat t) l) =
  take (Z.to_nat n) (drop (Z.to_nat t) l).
Proof.
  intros Hn Ht.
  assert (Hlen : length (drop (Z.to_nat t) l) =
                 Z.to_nat (Z.of_nat (length l) - t)).
  { rewrite length_drop. lia. }
  destruct (Z.le_ge_cases n (Z.of_nat (length l) - t)) as [Hle|Hge].
  - rewrite Z.min_l by exact Hle. reflexivity.
  - rewrite Z.min_r by lia. rewrite !take_ge by (rewrite Hlen; lia).
    reflexivity.
Qed.

Lemma tiff_io_open_wf data : io_wf (tiff_io_open data).
Proof. unfold io_wf, tiff_io_open. cbn. lia. Qed.

(** X1: [tiff_Read] on a well-formed state never reads past the end of
    the input: asked for [size >= 0] bytes it returns, hands over exactly
    the [min size (bytes to the end)] bytes that follow the read pointer,
    reports that count, advances the read pointer by it and leaves the
    state well-formed; a negative [size] is undefined behaviour. *)
Theorem tiff_Read_clamped (io : tiff_io) (size : Z) :
  io_wf io ->
  (0 <= size ->
   exists io' buf,
     tiff_Read io size =
     Ret (io', buf, Z.min size (io_size io - io_fp io)) /\
     buf = take (Z.to_nat size) (drop (Z.to_nat (io_fp io)) (io_data io)) /\
     Z.of_nat (length buf) = Z.min size (io_size io - io_fp io) /\
     io_data io' = io_data io /\
     io_fp io' = io_fp io + Z.min size (io_size io - io_fp io) /\
     io_wf io') /\
  (size < 0 -> tiff_Read io size = Crash).
Proof.
  intros Hwf. pose proof Hwf as [Hsize Hfp]. split.
  - intros Hn. eexists. eexists. split; [apply tiff_Read_Ret; assumption|].
    assert (Hlen : length (drop (Z.to_nat (io_fp io)) (io_data io)) =
                   Z.to_nat (io_size io - io_fp io)).
    { rewrite length_drop. lia. }
    split; [|split; [|split; [reflexivity|split; [reflexivity|]]]].
    + destruct (Z.le_ge_cases size (io_size io - io_fp io)) as [Hle|Hge].
      * rewrite Z.min_l by exact Hle. reflexivity.
      * rewrite Z.min_r by lia.
        rewrite !take_ge by (rewrite Hlen; lia). reflexivity.
    + rewrite length_take, Hlen. lia.
    + unfold io_wf. cbn. lia.
  - intros Hneg. unfold tiff_Read, copy_from.
    destruct (Z.ltb_spec (io_size io - io_fp io) size) as [Hlt|_].
    + destruct (Z.ltb_spec (io_size io - io_fp io) 0) as [_|H0];
        [reflexivity|lia].
    + destruct (Z.ltb_spec size 0) as [_|H0]; [reflexivity|lia].
Qed.

(** X2: two reads in a row are one read of the sum: the second buffer
    continues the first, the counts add up and the final state is the
    same, also when the end of the input falls inside either read. *)
Theorem tiff_Read_twice (io io1 io2 : tiff_io) (a b n1 n2 : Z)
    (buf1 buf2 : list Z) :
  io_wf io -> 0 <= a -> 0 <= b ->
  tiff_Read io a = Ret (io1, buf1, n1) ->
  tiff_Read io1 b = Ret (io2, buf2, n2) ->
  tiff_Read io (a + b) = Ret (io2, buf1 ++ buf2, n1 + n2).
Proof.
  intros Hwf Ha Hb H1 H2. pose proof Hwf as [Hsize Hfp].
  rewrite tiff_Read_Ret in H1 by assumption.
  inversion H1 as [[Hio1 Hbuf1 Hn1]]. clear H1.
  assert (Hwf1 : io_wf io1).
  { rewrite <- Hio1. unfold io_wf. cbn. lia. }
  rewrite tiff_Read_Ret in H2 by assumption.
  inversion H2 as [[Hio2 Hbuf2 Hn2]]. clear H2.
  rewrite tiff_Read_Ret by (assumption || lia).
  rewrite <- Hio1. cbn [io_data io_size io_fp].
  set (e := io_size io - io_fp io).
  assert (He : 0 <= e) by (unfold e; lia).
  assert (Hsum : Z.min a e +
                 Z.min b (io_size io - (io_fp io + Z.min a e)) =
                 Z.min (a + b) e) by (unfold e; lia).
  rewrite <- Hsum, <- Z.add_assoc.
  rewrite Z2Nat.inj_add by lia.
  rewrite <- take_take_drop, drop_drop.
  rewrite <- Z2Nat.inj_add by lia. reflexivity.
Qed.

(** X3: seeking and then reading is a read at the position sought.  On a
    well-formed state whose size fits [toff_t], a seek to a position [t]
    inside the input, given from the start (SEEK_SET), from the read
    pointer (SEEK_CUR) or as a distance back from the end (SEEK_END:
    the code subtracts the offset from the end), returns [t], keeps the
    state well-formed, and the next read returns the bytes of the input
    from [t] on. *)
Theorem tiff_Seek_then_Read (io : tiff_io) (off whence t n : Z) :
  io_wf io -> io_size io < 2 ^ toff_t_bits ->
  (whence = SEEK_SET /\ t = off \/
   whence = SEEK_CUR /\ t = io_fp io + off \/
   whence = SEEK_END /\ t = io_size io - off) ->
  0 <= t <= io_size io -> 0 <= n ->
  exists io1 io2,
    tiff_Seek io off whence = Ret (io1, t) /\ io_wf io1 /\
    tiff_Read io1 n =
    Ret (io2, take (Z.to_nat n) (drop (Z.to_nat t) (io_data io)),
         Z.min n (io_size io - t)) /\
    io_wf io2.
Proof.
  intros Hwf Hfit Hwh Ht Hn. pose proof Hwf as [Hsize Hfp].
  assert (Hseek : tiff_Seek io off whence =
                  Ret (mkTiffIo (io_data io) (io_size io) t, t)).
  { unfold tiff_Seek.
    assert (Hfp' : (if whence =? SEEK_SET then off
                    else if whence =? SEEK_CUR then io_fp io + off
                    else if whence =? SEEK_END then io_size io - off
                    else io_fp io) = t).
    { unfold SEEK_SET, SEEK_CUR, SEEK_END in *.
      destruct Hwh as [[-> ->]|[[-> ->]|[-> ->]]]; reflexivity. }
    rewrite Hfp'.
    destruct (Z.leb_spec 0 t) as [_|Hneg]; [|lia].
    destruct (Z.leb_spec t (io_size io)) as [_|Hover]; [|lia].
    cbn [andb]. rewrite Z.mod_small by lia. reflexivity. }
  assert (Hwf1 : io_wf (mkTiffIo (io_data io) (io_size io) t)).
  { unfold io_wf. cbn. lia. }
  eexists. eexists. split; [exact Hseek|]. split; [exact Hwf1|].
  rewrite tiff_Read_Ret by assumption. cbn [io_data io_size io_fp].
  split.
  - rewrite Hsize. rewrite (take_clamped (io_data io) n t) by lia.
    reflexivity.
  - unfold io_wf. cbn [io_data io_size io_fp]. lia.
Qed.

(** ** ReadTIFF with other sample counts *)

Lemma ReadTIFF_copy_filled pixels width height v0 :
  1 <= width -> 0 <= height -> 3 * width * height <= INT_MAX ->
  filled (ReadTIFF_copy_byte pixels) (3 * width * height) 0 v0 ->
  exists v,
    ReadTIFF_copy pixels width height width v0 = Ret v /\
    filled (ReadTIFF_copy_byte pixels) (3 * width * height)
      (3 * width * height) v.
Proof.
  intros Hw Hh Hmax Hv0. unfold ReadTIFF_copy.
  apply (pixel_rows_filled (ReadTIFF_copy_byte pixels) width height
           (fun y row_out x rgb =>
              let row_in := to_uint32 (y * width) in
              store_rgb rgb row_out x
                (pixel_byte pixels row_in x 0)
                (pixel_byte pixels row_in x 1)
                (pixel_byte pixels row_in x 2)));
    try assumption.
  intros y x v Hy Hx. cbv zeta.
  rewrite to_uint32_small by (unfold INT_MAX in *; nia).
  unfold ReadTIFF_copy_byte, pixel_byte.
  destruct (pixel_index width x y 0 ltac:(lia) Hx ltac:(lia)) as (A0 & B0 & _).
  destruct (pixel_index width x y 1 ltac:(lia) Hx ltac:(lia)) as (A1 & B1 & _).
  destruct (pixel_index width x y 2 ltac:(lia) Hx ltac:(lia)) as (A2 & B2 & _).
  rewrite A0, B0, A1, B1, A2, B2. reflexivity.
Qed.

(** X4: a TIFF whose SamplesPerPixel is not 4 is decoded without any
    blending: when libtiff hands over a [4 * width * height] byte RGBA
    raster, [ReadTIFF] returns, and byte [k] of output pixel [p] is byte
    [k] of raster pixel [p] for [k = 0, 1, 2]; the fourth byte of each
    raster pixel is dropped and nothing outside the raster is read, in
    either blend mode. *)
Theorem ReadTIFF_copy_pixels (data : list Z) (tif : tiff_info)
    (pixels : list Z) :
  TIFFClientOpen data = Some tif -> tiff_RGBAImage tif = Some pixels ->
  tiff_SamplesPerPixel tif <> 4 ->
  1 <= tiff_ImageWidth tif -> 1 <= tiff_ImageLength tif ->
  3 * tiff_ImageWidth tif * tiff_ImageLength tif <= INT_MAX ->
  Z.of_nat (length pixels) = 4 * tiff_ImageWidth tif * tiff_ImageLength tif ->
  exists v,
    ReadTIFF data =
    Ret (Some (mkImage (tiff_ImageWidth tif) (tiff_ImageLength tif) v)) /\
    Z.of_nat (length v) = 3 * tiff_ImageWidth tif * tiff_ImageLength tif /\
    forall p k,
      0 <= p < tiff_ImageWidth tif * tiff_ImageLength tif -> 0 <= k < 3 ->
      v !! Z.to_nat (3 * p + k) = pixels !! Z.to_nat (4 * p + k).
Proof.
  intros Hopen Hraster Hspp Hw Hh Hmax Hlen.
  unfold ReadTIFF. rewrite Hopen. cbv zeta. rewrite Hraster.
  destruct (Z.eqb_spec (tiff_SamplesPerPixel tif) 4) as [|_];
    [contradiction|]. cbn [negb].
  rewrite !to_int32_small by (unfold INT_MAX in *; nia).
  unfold int_mul.
  rewrite chk_int_Ret by (unfold is_int, INT_MIN, INT_MAX in *; nia).
  cbn -[Z.mul Z.add].
  rewrite chk_int_Ret by (unfold is_int, INT_MIN, INT_MAX in *; nia).
  cbn -[Z.mul Z.add].
  rewrite vector_resize_Ret by nia. cbn -[Z.mul Z.add].
  pose proof (filled_replicate (ReadTIFF_copy_byte pixels)
                (3 * tiff_ImageWidth tif * tiff_ImageLength tif)
                ltac:(nia)) as Hv0.
  destruct (ReadTIFF_copy_filled pixels (tiff_ImageWidth tif)
              (tiff_ImageLength tif) _ Hw ltac:(lia) Hmax Hv0)
    as (v & Hrun & [Hvlen Hv]).
  rewrite Hrun. exists v. split; [reflexivity|]. split; [exact Hvlen|].
  intros p k Hp Hk. rewrite Hv by nia.
  unfold ReadTIFF_copy_byte, pixel_byte.
  replace (3 * p + k) with (k + p * 3) by lia.
  rewrite Z.div_add, Z.mod_add by lia.
  rewrite Z.div_small, Z.mod_small by lia.
  replace (4 * (0 + (0 + p)) + k) with (4 * p + k) by lia.
  unfold byte_at.
  destruct (Z.ltb_spec (4 * p + k) 0) as [Hneg|_]; [lia|].
  destruct (lookup_lt_is_Some_2 pixels (Z.to_nat (4 * p + k))) as [b Hb];
    [nia|].
  rewrite Hb. reflexivity.
Qed.

(** ** What the loop in [main] lets through *)

Lemma PngProcessor_Process_unsupported data out :
  has_png_magic data = false ->
  PngProcessor_Process data out = Ret (NotSupported, out).
Proof. intros H. unfold PngProcessor_Process. rewrite H. reflexivity. Qed.

Lemma TiffProcessor_Process_unsupported data out :
  has_tiff_magic data = false ->
  TiffProcessor_Process data out = Ret (NotSupported, out).
Proof. intros H. unfold TiffProcessor_Process. rewrite H. reflexivity. Qed.

Lemma TiffProcessor_Process_supported data out0 r out :
  has_tiff_magic data = true ->
  TiffProcessor_Process data out0 = Ret (r, out) -> r <> NotSupported.
Proof.
  intros Hmagic. unfold TiffProcessor_Process. rewrite Hmagic.
  destruct (ReadTIFF data) as [[img|]|]; cbn; intros H; inversion H; subst.
  - pose proof (encode_rgb_supported img out0) as Hs.
    destruct (encode_rgb img out0) as [r' out']. inversion H1; subst.
    exact Hs.
  - discriminate.
Qed.

Lemma encode_rgb_cases img out :
  (MemlimitExceeded cfg (xsize img) (ysize img) = false /\
   exists jpg,
     guetzli_Process_rgb cfg (rgb img) (xsize img) (ysize img) = Some jpg /\
     encode_rgb img out = (Sucess, jpg)) \/
  ((MemlimitExceeded cfg (xsize img) (ysize img) = true \/
    guetzli_Process_rgb cfg (rgb img) (xsize img) (ysize img) = None) /\
   encode_rgb img out = (ProcessFailed, out)).
Proof.
  unfold encode_rgb.
  destruct (MemlimitExceeded cfg (xsize img) (ysize img));
    [right; split; [left|]; reflexivity|].
  destruct (guetzli_Process_rgb cfg (rgb img) (xsize img) (ysize img))
    as [jpg|].
  - left. split; [reflexivity|]. exists jpg. split; reflexivity.
  - right. split; [right|]; reflexivity.
Qed.

(** The three ways a processor call ends: not its format, a failure, or
    encoder output for an image the memory test admitted. *)
Lemma Process_cases p data out r out' :
  Process p data out = Ret (r, out') ->
  r = NotSupported /\ out' = out \/
  r = ProcessFailed /\ out' = out \/
  r = Sucess /\
  ((exists img,
      (p = pngProcessor /\ has_png_magic data = true /\
       ReadPNG data = Ret (Some img) \/
       p = tiffProcessor /\ has_tiff_magic data = true /\
       ReadTIFF data = Ret (Some img)) /\
      MemlimitExceeded cfg (xsize img) (ysize img) = false /\
      guetzli_Process_rgb cfg (rgb img) (xsize img) (ysize img) = Some out') \/
   (exists width height,
      p = jpegProcessor /\ ReadJpeg data = Some (width, height) /\
      MemlimitExceeded cfg width height = false /\
      guetzli_Process_jpeg cfg data = Some out')).
Proof.
  destruct p; cbn [Process].
  - unfold PngProcessor_Process.
    destruct (has_png_magic data) eqn:Hmagic;
      [|intros H; inversion H; left; split; reflexivity].
    destruct (ReadPNG data) as [[img|]|] eqn:Hread; cbn;
      [|intros H; inversion H; right; left; split; reflexivity
       |discriminate].
    intros H. inversion H as [He]. clear H.
    destruct (encode_rgb_cases img out)
      as [(Hgate & jpg & Henc & Hrun)|(_ & Hrun)];
      rewrite Hrun in He; inversion He; subst.
    + right. right. split; [reflexivity|]. left. exists img.
      split; [left; repeat split; reflexivity|]. split; assumption.
    + right. left. split; reflexivity.
  - unfold TiffProcessor_Process.
    destruct (has_tiff_magic data) eqn:Hmagic;
      [|intros H; inversion H; left; split; reflexivity].
    destruct (ReadTIFF data) as [[img|]|] eqn:Hread; cbn;
      [|intros H; inversion H; right; left; split; reflexivity
       |discriminate].
    intros H. inversion H as [He]. clear H.
    destruct (encode_rgb_cases img out)
      as [(Hgate & jpg & Henc & Hrun)|(_ & Hrun)];
      rewrite Hrun in He; inversion He; subst.
    + right. right. split; [reflexivity|]. left. exists img.
      split; [right; repeat split; reflexivity|]. split; assumption.
    + right. left. split; reflexivity.
  - unfold JpegProcessor_Process.
    destruct (ReadJpeg data) as [[width height]|] eqn:Hread;
      [|intros H; inversion H; left; split; reflexivity].
    destruct (MemlimitExceeded cfg width height) eqn:Hgate;
      [intros H; inversion H; right; left; split; reflexivity|].
    destruct (guetzli_Process_jpeg cfg data) as [jpg|] eqn:Henc;
      intros H; inversion H; subst.
    + right. right. split; [reflexivity|]. right. exists width, height.
      repeat split; assumption.
    + right. left. split; reflexivity.
Qed.

Lemma main_state_second_probe data r out :
  has_png_magic data = false ->
  TiffProcessor_Process data [] = Ret (r, out) -> r <> NotSupported ->
  main_state data =
  Ret (mkMainState (ProcessResult_eqb r Sucess) out
         [(pngProcessor, NotSupported); (tiffProcessor, r)]).
Proof.
  intros Hpng Htiff Hr. unfold main_state, processors.
  cbn [process_loop Process out_data probes processed].
  rewrite (PngProcessor_Process_unsupported data [] Hpng). cbn.
  rewrite Htiff. cbn.
  destruct r; [contradiction|reflexivity|reflexivity].
Qed.

Lemma main_state_third_probe data r out :
  has_png_magic data = false -> has_tiff_magic data = false ->
  JpegProcessor_Process data [] = Ret (r, out) ->
  main_state data =
  Ret (mkMainState (ProcessResult_eqb r Sucess) out
         [(pngProcessor, NotSupported); (tiffProcessor, NotSupported);
          (jpegProcessor, r)]).
Proof.
  intros Hpng Htiff Hjpeg. unfold main_state, processors.
  cbn [process_loop Process out_data probes processed].
  rewrite (PngProcessor_Process_unsupported data [] Hpng). cbn.
  rewrite (TiffProcessor_Process_unsupported data [] Htiff). cbn.
  rewrite Hjpeg. cbn. destruct r; reflexivity.
Qed.

Lemma JpegProcessor_Process_returns data out :
  exists r out', JpegProcessor_Process data out = Ret (r, out').
Proof.
  unfold JpegProcessor_Process.
  destruct (ReadJpeg data) as [[width height]|]; [|eauto].
  destruct (MemlimitExceeded cfg width height); [eauto|].
  destruct (guetzli_Process_jpeg cfg data); eauto.
Qed.

(** The processor whose verdict [main] acts on: the PNG one when the
    signature is there, else the TIFF one when the byte-order mark is
    there, else the JPEG one. *)
Lemma main_state_deciding data st :
  main_state data = Ret st ->
  exists p r,
    (p = pngProcessor /\ has_png_magic data = true \/
     p = tiffProcessor /\ has_png_magic data = false /\
     has_tiff_magic data = true \/
     p = jpegProcessor /\ has_png_magic data = false /\
     has_tiff_magic data = false) /\
    Process p data [] = Ret (r, out_data st) /\
    processed st = ProcessResult_eqb r Sucess /\
    last (probes st) = Some (p, r).
Proof.
  intros Hst.
  destruct (has_png_magic data) eqn:Hpng.
  - destruct (PngProcessor_Process data []) as [[r out]|] eqn:Hrun.
    + pose proof (PngProcessor_Process_supported data [] r out Hpng Hrun)
        as Hr.
      rewrite (main_state_first_probe data r out Hrun Hr) in Hst.
      inversion Hst; subst. exists pngProcessor, r.
      split; [left; split; reflexivity|]. repeat split. exact Hrun.
    + unfold main_state, processors in Hst.
      cbn [process_loop Process out_data] in Hst. rewrite Hrun in Hst.
      discriminate.
  - destruct (has_tiff_magic data) eqn:Htiff.
    + destruct (TiffProcessor_Process data []) as [[r out]|] eqn:Hrun.
      * pose proof (TiffProcessor_Process_supported data [] r out Htiff Hrun)
          as Hr.
        rewrite (main_state_second_probe data r out Hpng Hrun Hr) in Hst.
        inversion Hst; subst. exists tiffProcessor, r.
        split; [right; left; repeat split; reflexivity|].
        repeat split. exact Hrun.
      * unfold main_state, processors in Hst.
        cbn [process_loop Process out_data probes processed] in Hst.
        rewrite (PngProcessor_Process_unsupported data [] Hpng) in Hst.
        cbn in Hst. rewrite Hrun in Hst. discriminate.
    + destruct (JpegProcessor_Process_returns data []) as (r & out & Hrun).
      rewrite (main_state_third_probe data r out Hpng Htiff Hrun) in Hst.
      inversion Hst; subst. exists jpegProcessor, r.
      split; [right; right; repeat split; reflexivity|].
      repeat split. exact Hrun.
Qed.

Lemma main_WroteOutput_inv data out :
  main data = Ret (WroteOutput out) ->
  (exists img,
     (has_png_magic data = true /\ ReadPNG data = Ret (Some img) \/
      has_png_magic data = false /\ has_tiff_magic data = true /\
      ReadTIFF data = Ret (Some img)) /\
     MemlimitExceeded cfg (xsize img) (ysize img) = false /\
     guetzli_Process_rgb cfg (rgb img) (xsize img) (ysize img) = Some out) \/
  (exists width height,
     has_png_magic data = false /\ has_tiff_magic data = false /\
     ReadJpeg data = Some (width, height) /\
     MemlimitExceeded cfg width height = false /\
     guetzli_Process_jpeg cfg data = Some out).
Proof.
  unfold main. destruct (main_state data) as [st|] eqn:Hst; [|discriminate].
  cbn. unfold main_result.
  destruct (processed st) eqn:Hproc; [|discriminate].
  intros H. inversion H; subst. clear H.
  destruct (main_state_deciding data st Hst) as (p & r & Hwho & Hrun & Hp & _).
  rewrite Hproc in Hp. destruct r; try discriminate.
  destruct (Process_cases p data [] Sucess (out_data st) Hrun)
    as [[Hr _]|[[Hr _]|[_ Hs]]]; try discriminate.
  destruct Hs as [(img & Hdec & Hgate & Henc)|(w & h & Hj & Hread & Hgate & Henc)].
  - left. exists img. split; [|split; assumption].
    destruct Hdec as [(-> & Hm & Hread)|(-> & Hm & Hread)].
    + left. split; assumption.
    + right. destruct Hwho as [[Hq _]|[(_ & Hq1 & Hq2)|(Hq & _)]];
        try discriminate. repeat split; assumption.
  - right. exists w, h. subst p.
    destruct Hwho as [[Hq _]|[(Hq & _)|(_ & Hq1 & Hq2)]]; try discriminate.
    repeat split; assumption.
Qed.

(** X5: [main] writes an output file exactly when the first processor
    that knows the format decodes the input, the memory test admits its
    dimensions and the encoder succeeds, and what it writes is the
    encoder's output.  The PNG processor is asked first, the TIFF one only
    for data without the PNG signature, the JPEG one only for data with
    neither mark. *)
Theorem main_writes_encoder_output (data out : list Z) :
  main data = Ret (WroteOutput out) <->
  (exists img,
     (has_png_magic data = true /\ ReadPNG data = Ret (Some img) \/
      has_png_magic data = false /\ has_tiff_magic data = true /\
      ReadTIFF data = Ret (Some img)) /\
     MemlimitExceeded cfg (xsize img) (ysize img) = false /\
     guetzli_Process_rgb cfg (rgb img) (xsize img) (ysize img) = Some out) \/
  (exists width height,
     has_png_magic data = false /\ has_tiff_magic data = false /\
     ReadJpeg data = Some (width, height) /\
     MemlimitExceeded cfg width height = false /\
     guetzli_Process_jpeg cfg data = Some out).
Proof.
  split; [apply main_WroteOutput_inv|].
  intros [(img & Hdec & Hgate & Henc)|(w & h & Hpng & Htiff & Hread & Hgate & Henc)].
  - assert (Hrun : encode_rgb img [] = (Sucess, out)).
    { unfold encode_rgb. rewrite Hgate, Henc. reflexivity. }
    destruct Hdec as [[Hm Hread]|(Hpng & Hm & Hread)].
    + unfold main.
      rewrite (main_state_first_probe data Sucess out);
        [reflexivity| |discriminate].
      rewrite (PngProcessor_Process_decoded data [] img Hm Hread), Hrun.
      reflexivity.
    + unfold main.
      rewrite (main_state_second_probe data Sucess out Hpng);
        [reflexivity| |discriminate].
      rewrite (TiffProcessor_Process_decoded data [] img Hm Hread), Hrun.
      reflexivity.
  - unfold main.
    rewrite (main_state_third_probe data Sucess out Hpng Htiff);
      [reflexivity|].
    unfold JpegProcessor_Process. rewrite Hread, Hgate, Henc. reflexivity.
Qed.

(** X6: data without the PNG signature that opens with a TIFF byte-order
    mark is settled by the TIFF processor: the PNG processor declines,
    the TIFF verdict is never [NotSupported], the loop stops there and
    the JPEG processor is not called; a failed TIFF decode ends [main]
    with "Unknown file format". *)
Theorem tiff_signature_dispatch (data : list Z) :
  has_png_magic data = false -> has_tiff_magic data = true ->
  (forall r out,
     TiffProcessor_Process data [] = Ret (r, out) ->
     r <> NotSupported /\
     main_state data =
     Ret (mkMainState (ProcessResult_eqb r Sucess) out
            [(pngProcessor, NotSupported); (tiffProcessor, r)])) /\
  (TiffProcessor_Process data [] = Crash -> main_state data = Crash) /\
  (ReadTIFF data = Ret None -> main data = Ret UnknownFileFormat).
Proof.
  intros Hpng Htiff. split; [|split].
  - intros r out Hrun.
    pose proof (TiffProcessor_Process_supported data [] r out Htiff Hrun)
      as Hr.
    split; [exact Hr|]. apply main_state_second_probe; assumption.
  - intros Hcrash. unfold main_state, processors.
    cbn [process_loop Process out_data probes processed].
    rewrite (PngProcessor_Process_unsupported data [] Hpng). cbn.
    rewrite Hcrash. reflexivity.
  - intros Hread. unfold main.
    rewrite (main_state_second_probe data ProcessFailed []);
      [reflexivity|assumption| |discriminate].
    unfold TiffProcessor_Process. rewrite Htiff, Hread. reflexivity.
Qed.

(** X7: data with neither the PNG signature nor a TIFF byte-order mark
    reaches the JPEG processor, which always returns; all three
    processors are consulted in the order PNG, TIFF, JPEG, and [main]
    returns: it writes the output when the JPEG verdict is [Sucess] and
    reports "Unknown file format" otherwise, also when the JPEG was
    recognised and only the memory test or the encoder failed. *)
Theorem jpeg_fallback_dispatch (data : list Z) :
  has_png_magic data = false -> has_tiff_magic data = false ->
  exists r out,
    JpegProcessor_Process data [] = Ret (r, out) /\
    main_state data =
    Ret (mkMainState (ProcessResult_eqb r Sucess) out
           [(pngProcessor, NotSupported); (tiffProcessor, NotSupported);
            (jpegProcessor, r)]) /\
    main data =
    Ret (if ProcessResult_eqb r Sucess then WroteOutput out
         else UnknownFileFormat).
Proof.
  intros Hpng Htiff.
  destruct (JpegProcessor_Process_returns data []) as (r & out & Hrun).
  exists r, out. split; [exact Hrun|].
  pose proof (main_state_third_probe data r out Hpng Htiff Hrun) as Hst.
  split; [exact Hst|]. unfold main. rewrite Hst. reflexivity.
Qed.

(** X8: with a memory limit below 100 MB (and not -1) [main] never
    writes an output file, whatever the input and whatever the decoders
    and the encoder do. *)
Theorem low_memlimit_never_writes (data out : list Z) :
  memlimit_mb cfg <> -1 -> memlimit_mb cfg < kLowestMemusageMB ->
  main data <> Ret (WroteOutput out).
Proof.
  intros Hfin Hlow Hmain.
  assert (Hgate : forall w h, MemlimitExceeded cfg w h = true).
  { intros w h. unfold MemlimitExceeded.
    destruct (Z.eqb_spec (memlimit_mb cfg) (-1)) as [|_]; [contradiction|].
    destruct (Z.ltb_spec (memlimit_mb cfg) kLowestMemusageMB) as [_|Hge];
      [|lia].
    rewrite orb_true_r. reflexivity. }
  destruct (main_WroteOutput_inv data out Hmain)
    as [(img & _ & Hadm & _)|(w & h & _ & _ & _ & Hadm & _)];
    rewrite Hgate in Hadm; discriminate.
Qed.

(** ** More on the memory test *)

Lemma MemlimitExceeded_finite_at conf width height :
  is_int width -> is_int height -> is_int (memlimit_mb conf) ->
  memlimit_mb conf <> -1 ->
  (MemlimitExceeded conf width height = true <->
   memlimit_mb conf * 2 ^ 20 < width * height * 110 \/
   memlimit_mb conf < kLowestMemusageMB).
Proof.
  unfold is_int, INT_MIN, INT_MAX, kLowestMemusageMB.
  intros Hw Hh Hm Hfin. unfold MemlimitExceeded, kLowestMemusageMB.
  destruct (Z.eqb_spec (memlimit_mb conf) (-1)) as [|_]; [contradiction|].
  cbn [negb andb].
  destruct (Z.ltb_spec (memlimit_mb conf) 100) as [Hlow|Hhigh].
  - rewrite orb_true_r. split; [intros _; right; exact Hlow|reflexivity].
  - rewrite orb_false_r.
    rewrite estimate_exceeds_spec by (change (2 ^ 31) with 2147483648; lia).
    split; [intros H; left; exact H|intros [H|H]; [exact H|lia]].
Qed.

(** X9: the memory test is monotone, rounding included: an image the
    test rejects stays rejected when its width or height grows or when
    the (finite) limit shrinks.  The estimate is computed in [double];
    for [int] operands its roundings never reorder two outcomes. *)
Theorem MemlimitExceeded_monotone (conf conf' : Config)
    (width height width' height' : Z) :
  0 <= width <= width' -> 0 <= height <= height' ->
  is_int width' -> is_int height' ->
  is_int (memlimit_mb conf) -> is_int (memlimit_mb conf') ->
  memlimit_mb conf' <> -1 -> memlimit_mb conf' <= memlimit_mb conf ->
  MemlimitExceeded conf width height = true ->
  MemlimitExceeded conf' width' height' = true.
Proof.
  intros Hw Hh Hiw Hih Him Him' Hfin' Hle Hex.
  assert (Hfin : memlimit_mb conf <> -1).
  { intros E. unfold MemlimitExceeded in Hex. rewrite E in Hex.
    discriminate. }
  assert (Hiw0 : is_int width)
    by (unfold is_int, INT_MIN, INT_MAX in *; lia).
  assert (Hih0 : is_int height)
    by (unfold is_int, INT_MIN, INT_MAX in *; lia).
  apply (MemlimitExceeded_finite_at conf width height Hiw0 Hih0 Him Hfin)
    in Hex.
  apply (MemlimitExceeded_finite_at conf' width' height' Hiw Hih Him' Hfin').
  unfold kLowestMemusageMB in *.
  destruct (Z.lt_ge_cases (memlimit_mb conf') 100) as [Hlow|Hhigh];
    [right; exact Hlow|left].
  destruct Hex as [Hex|Hex]; [|lia].
  assert (width * height <= width' * height') by nia.
  nia.
Qed.

(** X10: under the default limit of 6000 MB the test admits exactly the
    images of at most 57195054 pixels. *)
Theorem default_memlimit_pixels (width height : Z) :
  memlimit_mb cfg = kDefaultMemlimitMB -> is_int width -> is_int height ->
  (MemlimitExceeded cfg width height = false <->
   width * height <= 57195054).
Proof.
  intros Hdef Hw Hh.
  assert (Hm : is_int (memlimit_mb cfg)).
  { rewrite Hdef. unfold is_int, kDefaultMemlimitMB, INT_MIN, INT_MAX. lia. }
  assert (Hfin : memlimit_mb cfg <> -1).
  { rewrite Hdef. unfold kDefaultMemlimitMB. lia. }
  pose proof (MemlimitExceeded_finite width height Hw Hh Hm Hfin) as Hiff.
  rewrite Hdef in Hiff. unfold kDefaultMemlimitMB, kLowestMemusageMB in Hiff.
  change (2 ^ 20) with 1048576 in Hiff.
  destruct (MemlimitExceeded cfg width height).
  - split; [discriminate|]. intros Hle.
    destruct (proj1 Hiff eq_refl) as [H|H]; lia.
  - split; [|reflexivity]. intros _.
    destruct (Z.le_gt_cases (width * height) 57195054) as [Hle|Hgt];
      [exact Hle|].
    assert (Ht : true = false); [|discriminate].
    symmetry. apply Hiff. left. lia.
Qed.

(** ** Images too large for [int] *)

Lemma oversized_resize_crashes (w h : Z) (k : Z -> exec (option Image)) :
  1 <= w <= INT_MAX -> 1 <= h <= INT_MAX -> INT_MAX < 3 * w * h ->
  (t ← int_mul 3 w; n ← int_mul t h; k n) = Crash.
Proof.
  intros Hw Hh Hbig. unfold int_mul, chk_int.
  destruct (Z.leb_spec INT_MIN (3 * w)) as [_|Hneg];
    [|unfold INT_MIN in *; lia].
  destruct (Z.leb_spec (3 * w) INT_MAX) as [Hfit|_]; [|reflexivity].
  cbn -[Z.mul INT_MIN INT_MAX Z.leb].
  destruct (Z.leb_spec INT_MIN (3 * w * h)) as [_|Hneg];
    [|unfold INT_MIN in *; nia].
  destruct (Z.leb_spec (3 * w * h) INT_MAX) as [Hfit'|_]; [lia|].
  reflexivity.
Qed.

(** X11: the memory test does not guard the decoders.  For a PNG or a
    TIFF whose width and height fit [int] but whose [3 * width * height]
    does not, the size of the pixel buffer overflows [int] in [ReadPNG] or
    [ReadTIFF] (undefined behaviour), before the memory test is reached:
    the decoder, its processor and [main] do not return, whatever the
    memory limit. *)
Theorem oversized_image_overflows (data : list Z) (width height : Z) :
  1 <= width <= INT_MAX -> 1 <= height <= INT_MAX ->
  INT_MAX < 3 * width * height ->
  (forall info,
     has_png_magic data = true -> png_read_png data = Some info ->
     png_get_image_width info = width ->
     png_get_image_height info = height ->
     ReadPNG data = Crash /\ main data = Crash) /\
  (forall tif pixels,
     has_png_magic data = false -> has_tiff_magic data = true ->
     TIFFClientOpen data = Some tif -> tiff_RGBAImage tif = Some pixels ->
     tiff_ImageWidth tif = width -> tiff_ImageLength tif = height ->
     ReadTIFF data = Crash /\ main data = Crash).
Proof.
  intros Hw Hh Hbig. split.
  - intros info Hmagic Hread Hiw Hih.
    assert (Hdec : ReadPNG data = Crash).
    { unfold ReadPNG. rewrite Hread, Hiw, Hih.
      rewrite !to_int32_small by (unfold INT_MAX in *; lia).
      apply oversized_resize_crashes; assumption. }
    split; [exact Hdec|].
    unfold main, main_state, processors.
    cbn [process_loop Process out_data probes processed].
    unfold PngProcessor_Process. rewrite Hmagic, Hdec. reflexivity.
  - intros tif pixels Hpng Hmagic Hopen Hraster Hiw Hih.
    assert (Hdec : ReadTIFF data = Crash).
    { unfold ReadTIFF. rewrite Hopen. cbv zeta. rewrite Hraster, Hiw, Hih.
      rewrite !to_int32_small by (unfold INT_MAX in *; lia).
      apply oversized_resize_crashes; assumption. }
    split; [exact Hdec|].
    unfold main, main_state, processors.
    cbn [process_loop Process out_data probes processed].
    rewrite (PngProcessor_Process_unsupported data [] Hpng). cbn.
    unfold TiffProcessor_Process. rewrite Hmagic, Hdec. reflexivity.
Qed.

(** ** More on blending *)

(** X12: blending on black is monotone and rounds to within 128/255 of
    a level: for bytes, a larger sample or a larger alpha never gives a
    smaller result, and [255 * result] differs from [val * alpha] by at
    most 128.  The rounding is not to nearest throughout: sample 127
    under alpha 1 gives 1, while 127/255 is below one half. *)
Theorem BlendOnBlack_monotone_rounding (val val' alpha alpha' : Z) :
  is_uint8 val -> is_uint8 val' -> is_uint8 alpha -> is_uint8 alpha' ->
  val <= val' -> alpha <= alpha' ->
  BlendOnBlack val alpha <= BlendOnBlack val' alpha' /\
  val * alpha - 126 <= 255 * BlendOnBlack val alpha <= val * alpha + 128 /\
  BlendOnBlack 127 1 = 1.
Proof.
  intros Hv Hv' Ha Ha' Hle Hale.
  rewrite !BlendOnBlack_div by assumption.
  unfold is_uint8 in *. split; [|split; [|reflexivity]].
  - apply Z.div_le_mono; nia.
  - pose proof (Z.div_mod (val * alpha + 128) 255 ltac:(lia)) as Hdm.
    pose proof (Z.mod_pos_bound (val * alpha + 128) 255 ltac:(lia)) as Hmod.
    lia.
Qed.

(** ** The command line *)

Ltac pick_disjunct :=
  match goal with
  | |- _ /\ _ => split; pick_disjunct
  | |- _ \/ _ => (left; pick_disjunct) || (right; pick_disjunct)
  | |- _ => first [reflexivity | assumption]
  end.

Ltac flag_case :=
  let H := fresh "H" in
  intros H; right; right; left; eexists; split; [|exact H]; pick_disjunct.

Lemma parse_options_cons arg rest g g' r :
  parse_options (arg :: rest) g = Some (g', r) ->
  is_long_option arg = false /\ g' = g /\ r = arg :: rest \/
  arg = "--"%string /\ g' = g /\ r = rest \/
  (exists g1, flag_step arg g g1 /\ parse_options rest g1 = Some (g', r)) \/
  (exists v rest' g1,
     rest = v :: rest' /\ value_step arg v g g1 /\
     parse_options rest' g1 = Some (g', r)).
Proof.
  cbn [parse_options]. unfold flag_step, value_step.
  destruct (is_long_option arg) eqn:Hlong; cbn [negb];
    [|intros H; inversion H; subst; left; repeat split; reflexivity].
  destruct (String.eqb_spec arg "--verbose") as [->|_];
    [flag_case|].
  destruct (String.eqb_spec arg "--quality") as [->|_].
  { destruct rest as [|v rest']; [discriminate|].
    intros H; right; right; right; exists v, rest'; eexists.
    split; [reflexivity|]. split; [|exact H]. left. split; reflexivity. }
  destruct (String.eqb_spec arg "--memlimit") as [->|_].
  { destruct rest as [|v rest']; [discriminate|].
    intros H; right; right; right; exists v, rest'; eexists.
    split; [reflexivity|]. split; [|exact H]. right. split; reflexivity. }
  destruct (String.eqb_spec arg "--nomemlimit") as [->|_];
    [flag_case|].
  destruct USE_OPENCL eqn:Hcl; cbn [andb].
  - destruct (String.eqb_spec arg "--opencl") as [->|_];
      [flag_case|].
    destruct (String.eqb_spec arg "--checkcl") as [->|_];
      [flag_case|].
    destruct (String.eqb_spec arg "--c") as [->|_];
      [flag_case|].
    destruct (String.eqb_spec arg "--blend-on-white") as [->|_];
      [flag_case|].
    destruct USE_CUDA eqn:Hcu; cbn [andb].
    + destruct (String.eqb_spec arg "--cuda") as [->|_];
        [flag_case|].
      destruct (String.eqb_spec arg "--checkcuda") as [->|_];
        [flag_case|].
      destruct (String.eqb_spec arg "--auto") as [->|_];
        [flag_case|].
      destruct (String.eqb_spec arg "--") as [->|_]; [|discriminate].
      intros H; inversion H; subst. right. left. repeat split; reflexivity.
    + destruct (String.eqb_spec arg "--") as [->|_]; [|discriminate].
      intros H; inversion H; subst. right. left. repeat split; reflexivity.
  - destruct (String.eqb_spec arg "--c") as [->|_];
      [flag_case|].
    destruct (String.eqb_spec arg "--blend-on-white") as [->|_];
      [flag_case|].
    destruct USE_CUDA eqn:Hcu; cbn [andb].
    + destruct (String.eqb_spec arg "--cuda") as [->|_];
        [flag_case|].
      destruct (String.eqb_spec arg "--checkcuda") as [->|_];
        [flag_case|].
      destruct (String.eqb_spec arg "--auto") as [->|_];
        [flag_case|].
      destruct (String.eqb_spec arg "--") as [->|_]; [|discriminate].
      intros H; inversion H; subst. right. left. repeat split; reflexivity.
    + destruct (String.eqb_spec arg "--") as [->|_]; [|discriminate].
      intros H; inversion H; subst. right. left. repeat split; reflexivity.
Qed.

(** Induction along the option loop. *)
Lemma parse_options_ind
    (P : list string -> Globals -> Globals -> list string -> Prop) :
  (forall g, P [] g g []) ->
  (forall arg rest g,
     is_long_option arg = false -> P (arg :: rest) g g (arg :: rest)) ->
  (forall rest g, P ("--"%string :: rest) g g rest) ->
  (forall arg rest g g1 g' r,
     flag_step arg g g1 -> P rest g1 g' r -> P (arg :: rest) g g' r) ->
  (forall arg v rest g g1 g' r,
     value_step arg v g g1 -> P rest g1 g' r ->
     P (arg :: v :: rest) g g' r) ->
  forall args g g' r, parse_options args g = Some (g', r) -> P args g g' r.
Proof.
  intros Hnil Hstop Hdash Hflag Hvalue args.
  assert (Hn : forall n args, (length args <= n)%nat ->
            forall g g' r, parse_options args g = Some (g', r) ->
                           P args g g' r).
  { induction n as [|n IH]; intros [|arg rest] Hlen g g' r Hrun;
      cbn [length] in Hlen; try lia.
    - inversion Hrun; subst. apply Hnil.
    - inversion Hrun; subst. apply Hnil.
    - destruct (parse_options_cons arg rest g g' r Hrun)
        as [(Hl & -> & ->)|[(-> & -> & ->)|[(g1 & Hs & Hr)|
            (v & rest' & g1 & -> & Hs & Hr)]]].
      + apply Hstop. exact Hl.
      + apply Hdash.
      + apply (Hflag arg rest g g1 g' r Hs). apply IH; [lia|exact Hr].
      + apply (Hvalue arg v rest' g g1 g' r Hs). apply IH; [|exact Hr].
        cbn [length] in Hlen. lia. }
  intros g g' r. apply (Hn (length args)). lia.
Qed.

Lemma parse_options_mode args g g' r :
  parse_options args g = Some (g', r) ->
  g_mathMode g' = g_mathMode g \/ g_mathMode g' = MODE_CPU_OPT \/
  USE_OPENCL = true /\
    (g_mathMode g' = MODE_OPENCL \/ g_mathMode g' = MODE_CHECKCL) \/
  USE_CUDA = true /\
    (g_mathMode g' = MODE_CUDA \/ g_mathMode g' = MODE_CHECKCUDA \/
     g_mathMode g' = MODE_AUTO).
Proof.
  revert args g g' r.
  apply (parse_options_ind (fun _ g g' _ =>
    g_mathMode g' = g_mathMode g \/ g_mathMode g' = MODE_CPU_OPT \/
    USE_OPENCL = true /\
      (g_mathMode g' = MODE_OPENCL \/ g_mathMode g' = MODE_CHECKCL) \/
    USE_CUDA = true /\
      (g_mathMode g' = MODE_CUDA \/ g_mathMode g' = MODE_CHECKCUDA \/
       g_mathMode g' = MODE_AUTO))); try (intros; left; reflexivity).
  - intros arg rest g g1 g' r Hs [IH|IH]; [|right; exact IH].
    unfold flag_step in Hs. rewrite IH.
    destruct Hs as [[_ ->]|[[_ ->]|[(E & _ & ->)|[(E & _ & ->)|[[_ ->]|
                   [[_ ->]|[(E & _ & ->)|[(E & _ & ->)|(E & _ & ->)]]]]]]]];
      cbn [g_mathMode set_verbose set_memlimit set_mathMode set_blendOnBlack];
      pick_disjunct.
  - intros arg v rest g g1 g' r Hs [IH|IH]; [|right; exact IH].
    unfold value_step in Hs. rewrite IH.
    destruct Hs as [[_ ->]|[_ ->]]; left; reflexivity.
Qed.

Lemma parse_options_suffix args g g' r :
  parse_options args g = Some (g', r) -> exists pre, args = pre ++ r.
Proof.
  revert args g g' r.
  apply (parse_options_ind (fun args _ _ r => exists pre, args = pre ++ r)).
  - intros _. exists []. reflexivity.
  - intros arg rest _ _. exists []. reflexivity.
  - intros rest _. exists ["--"%string]. reflexivity.
  - intros arg rest _ _ _ r _ [pre ->]. exists (arg :: pre). reflexivity.
  - intros arg v rest _ _ _ r _ [pre ->]. exists (arg :: v :: pre).
    reflexivity.
Qed.

Lemma main_arguments_inv args g0 g input output :
  main_arguments args g0 = Some (g, input, output) ->
  exists g',
    parse_options args g0 = Some (g', [input; output]) /\
    g_cfg g = g_cfg g' /\
    ((g_mathMode g' =? MODE_AUTO) = true /\
     g_mathMode g = autoDetectBestMode \/
     (g_mathMode g' =? MODE_AUTO) = false /\ g = g').
Proof.
  unfold main_arguments.
  destruct (parse_options args g0) as [[g' r]|]; [|discriminate].
  destruct r as [|i [|o [|x r]]]; try discriminate.
  intros H. inversion H; subst. exists g'. split; [reflexivity|].
  destruct (g_mathMode g' =? MODE_AUTO); split; try reflexivity;
    [left|right]; split; reflexivity.
Qed.

(** X13: the mode [main] runs with.  When the argument handling returns
    (no [Usage()] exit), and [MODE_AUTO] is a value of its own, the mode
    is never [MODE_AUTO]: it has been resolved by [autoDetectBestMode].
    It is the initial mode, [MODE_CPU_OPT], or a mode of a back end the
    build includes: an OpenCL mode only with [__USE_OPENCL__], a CUDA
    mode only with [__USE_CUDA__].  In a build without CUDA the option
    [--auto] is rejected. *)
Theorem main_arguments_mode (args : list string) (g0 g : Globals)
    (input output : string) :
  MODE_AUTO <> MODE_CPU_OPT -> MODE_AUTO <> MODE_OPENCL ->
  MODE_AUTO <> MODE_CUDA ->
  main_arguments args g0 = Some (g, input, output) ->
  g_mathMode g <> MODE_AUTO /\
  (g_mathMode g = g_mathMode g0 \/ g_mathMode g = MODE_CPU_OPT \/
   USE_OPENCL = true /\
     (g_mathMode g = MODE_OPENCL \/ g_mathMode g = MODE_CHECKCL) \/
   USE_CUDA = true /\
     (g_mathMode g = MODE_CUDA \/ g_mathMode g = MODE_CHECKCUDA)) /\
  (USE_CUDA = false ->
   forall rest, main_arguments ("--auto"%string :: rest) g0 = None).
Proof.
  intros Hcpu Hcl Hcu Hmain.
  destruct (main_arguments_inv args g0 g input output Hmain)
    as (g' & Hparse & _ & Hmode).
  pose proof (parse_options_mode args g0 g' _ Hparse) as Hset.
  assert (Hauto : autoDetectBestMode = MODE_CPU_OPT \/
                  USE_OPENCL = true /\ autoDetectBestMode = MODE_OPENCL \/
                  USE_CUDA = true /\ autoDetectBestMode = MODE_CUDA).
  { unfold autoDetectBestMode.
    destruct USE_CUDA; cbn [andb];
      [destruct (bool_decide (supportsCuda = Some true));
       [right; right; split; reflexivity|]|];
      (destruct USE_OPENCL; cbn [andb];
       [destruct (bool_decide (supportsOpenCl = Some true));
        [right; left; split; reflexivity|]|]); left; reflexivity. }
  split; [|split].
  - destruct Hmode as [[_ ->]|[Hne ->]].
    + destruct Hauto as [->|[[_ ->]|[_ ->]]]; congruence.
    + apply Z.eqb_neq. exact Hne.
  - destruct Hmode as [[_ ->]|[Hne ->]].
    + destruct Hauto as [->|[[E ->]|[E ->]]]; pick_disjunct.
    + apply Z.eqb_neq in Hne.
      destruct Hset as [E|[E|[[E [E'|E']]|[E [E'|[E'|E']]]]]];
        [| | | | | |contradiction]; pick_disjunct.
  - intros Hno rest. unfold main_arguments. cbn. rewrite Hno.
    destruct USE_OPENCL; reflexivity.
Qed.

(** X14: every setting keeps its initial value unless its own option is
    on the command line: [verbose] changes only through [--verbose] (to
    1), the quality only through [--quality] (to [atoi] of an argument),
    the memory limit only through [--memlimit] or [--nomemlimit] (then
    -1), the blend mode only through [--blend-on-white] (to white). *)
Theorem settings_change_only_by_their_option (args : list string)
    (g0 g : Globals) (input output : string) :
  main_arguments args g0 = Some (g, input, output) ->
  (verbose (g_cfg g) = verbose (g_cfg g0) \/
   In "--verbose"%string args /\ verbose (g_cfg g) = 1) /\
  (quality (g_cfg g) = quality (g_cfg g0) \/
   In "--quality"%string args /\
   exists v, In v args /\ quality (g_cfg g) = atoi v) /\
  (memlimit_mb (g_cfg g) = memlimit_mb (g_cfg g0) \/
   (In "--memlimit"%string args /\
    exists v, In v args /\ memlimit_mb (g_cfg g) = atoi v) \/
   In "--nomemlimit"%string args /\ memlimit_mb (g_cfg g) = -1) /\
  (blendOnBlack (g_cfg g) = blendOnBlack (g_cfg g0) \/
   In "--blend-on-white"%string args /\ blendOnBlack (g_cfg g) = false).
Proof.
  intros Hmain.
  destruct (main_arguments_inv args g0 g input output Hmain)
    as (g' & Hparse & -> & _).
  clear Hmain. revert Hparse. generalize [input; output]. revert args g0 g'.
  apply (parse_options_ind (fun args g0 g' _ =>
    (verbose (g_cfg g') = verbose (g_cfg g0) \/
     In "--verbose"%string args /\ verbose (g_cfg g') = 1) /\
    (quality (g_cfg g') = quality (g_cfg g0) \/
     In "--quality"%string args /\
     exists v, In v args /\ quality (g_cfg g') = atoi v) /\
    (memlimit_mb (g_cfg g') = memlimit_mb (g_cfg g0) \/
     (In "--memlimit"%string args /\
      exists v, In v args /\ memlimit_mb (g_cfg g') = atoi v) \/
     In "--nomemlimit"%string args /\ memlimit_mb (g_cfg g') = -1) /\
    (blendOnBlack (g_cfg g') = blendOnBlack (g_cfg g0) \/
     In "--blend-on-white"%string args /\ blendOnBlack (g_cfg g') = false)));
    try (intros; repeat split; left; reflexivity).
  - intros arg rest g0 g1 g' r Hs (Hv & Hq & Hm & Hb).
    assert (Hq' : quality (g_cfg g') = quality (g_cfg g1) \/
                  In "--quality"%string (arg :: rest) /\
                  exists v, In v (arg :: rest) /\
                            quality (g_cfg g') = atoi v).
    { destruct Hq as [E|(Hin & v & Hv' & E)]; [left; exact E|right].
      split; [right; exact Hin|]. exists v. split; [right; exact Hv'|exact E]. }
    assert (Hm' : memlimit_mb (g_cfg g') = memlimit_mb (g_cfg g1) \/
                  (In "--memlimit"%string (arg :: rest) /\
                   exists v, In v (arg :: rest) /\
                             memlimit_mb (g_cfg g') = atoi v) \/
                  In "--nomemlimit"%string (arg :: rest) /\
                  memlimit_mb (g_cfg g') = -1).
    { destruct Hm as [E|[(Hin & v & Hv' & E)|[Hin E]]]; [left; exact E| |].
      - right. left. split; [right; exact Hin|]. exists v.
        split; [right; exact Hv'|exact E].
      - right. right. split; [right; exact Hin|exact E]. }
    assert (Hv' : verbose (g_cfg g') = verbose (g_cfg g1) \/
                  In "--verbose"%string (arg :: rest) /\
                  verbose (g_cfg g') = 1).
    { destruct Hv as [E|[Hin E]]; [left; exact E|right].
      split; [right; exact Hin|exact E]. }
    assert (Hb' : blendOnBlack (g_cfg g') = blendOnBlack (g_cfg g1) \/
                  In "--blend-on-white"%string (arg :: rest) /\
                  blendOnBlack (g_cfg g') = false).
    { destruct Hb as [E|[Hin E]]; [left; exact E|right].
      split; [right; exact Hin|exact E]. }
    clear Hv Hq Hm Hb. unfold flag_step in Hs.
    destruct Hs as [[-> ->]|[[-> ->]|[(_ & _ & ->)|[(_ & _ & ->)|[[_ ->]|
                   [[-> ->]|[(_ & _ & ->)|[(_ & _ & ->)|(_ & _ & ->)]]]]]]]];
      cbn [g_cfg set_verbose set_memlimit set_mathMode set_blendOnBlack
           verbose quality memlimit_mb blendOnBlack] in *;
      (split; [|split; [|split]]); try assumption.
    + destruct Hv' as [E|H]; [right|right; exact H].
      split; [left; reflexivity|exact E].
    + destruct Hm' as [E|H]; [right; right|right; exact H].
      split; [left; reflexivity|exact E].
    + destruct Hb' as [E|H]; [right|right; exact H].
      split; [left; reflexivity|exact E].
  - intros arg v rest g0 g1 g' r Hs (Hv & Hq & Hm & Hb).
    assert (Hq' : quality (g_cfg g') = quality (g_cfg g1) \/
                  In "--quality"%string (arg :: v :: rest) /\
                  exists w, In w (arg :: v :: rest) /\
                            quality (g_cfg g') = atoi w).
    { destruct Hq as [E|(Hin & w & Hw & E)]; [left; exact E|right].
      split; [right; right; exact Hin|]. exists w.
      split; [right; right; exact Hw|exact E]. }
    assert (Hm' : memlimit_mb (g_cfg g') = memlimit_mb (g_cfg g1) \/
                  (In "--memlimit"%string (arg :: v :: rest) /\
                   exists w, In w (arg :: v :: rest) /\
                             memlimit_mb (g_cfg g') = atoi w) \/
                  In "--nomemlimit"%string (arg :: v :: rest) /\
                  memlimit_mb (g_cfg g') = -1).
    { destruct Hm as [E|[(Hin & w & Hw & E)|[Hin E]]]; [left; exact E| |].
      - right. left. split; [right; right; exact Hin|]. exists w.
        split; [right; right; exact Hw|exact E].
      - right. right. split; [right; right; exact Hin|exact E]. }
    assert (Hv' : verbose (g_cfg g') = verbose (g_cfg g1) \/
                  In "--verbose"%string (arg :: v :: rest) /\
                  verbose (g_cfg g') = 1).
    { destruct Hv as [E|[Hin E]]; [left; exact E|right].
      split; [right; right; exact Hin|exact E]. }
    assert (Hb' : blendOnBlack (g_cfg g') = blendOnBlack (g_cfg g1) \/
                  In "--blend-on-white"%string (arg :: v :: rest) /\
                  blendOnBlack (g_cfg g') = false).
    { destruct Hb as [E|[Hin E]]; [left; exact E|right].
      split; [right; right; exact Hin|exact E]. }
    clear Hv Hq Hm Hb. unfold value_step in Hs.
    destruct Hs as [[-> ->]|[-> ->]];
      cbn [g_cfg set_quality set_memlimit
           verbose quality memlimit_mb blendOnBlack] in *;
      (split; [|split; [|split]]); try assumption.
    + destruct Hq' as [E|H]; [right|right; exact H].
      split; [left; reflexivity|]. exists v.
      split; [right; left; reflexivity|exact E].
    + destruct Hm' as [E|H]; [right; left|right; exact H].
      split; [left; reflexivity|]. exists v.
      split; [right; left; reflexivity|exact E].
Qed.

(** X15: the two file names are the last two arguments: when the
    argument handling returns, the command line ends with the input name
    followed by the output name, so a command line of fewer than two
    arguments always ends in [Usage()]. *)
Theorem main_arguments_files (args : list string) (g0 : Globals) :
  (forall g input output,
     main_arguments args g0 = Some (g, input, output) ->
     exists pre, args = pre ++ [input; output]) /\
  ((length args < 2)%nat -> main_arguments args g0 = None).
Proof.
  assert (Hsome : forall g input output,
            main_arguments args g0 = Some (g, input, output) ->
            exists pre, args = pre ++ [input; output]).
  { intros g input output Hmain.
    destruct (main_arguments_inv args g0 g input output Hmain)
      as (g' & Hparse & _).
    exact (parse_options_suffix args g0 g' _ Hparse). }
  split; [exact Hsome|].
  intros Hlen.
  destruct (main_arguments args g0) as [[[g input] output]|] eqn:Hmain;
    [|reflexivity].
  destruct (Hsome g input output eq_refl) as [pre ->].
  rewrite length_app in Hlen. cbn [length] in Hlen. lia.
Qed.
End Frontend.

(** ** Concrete runs *)

Lemma BlendOnBlack_range_witness :
  Blend default_config 200 128 = (200 * 128 + 128) / 255 /\
  0 <= Blend default_config 200 128 <= 200 /\
  (128 = 0 -> Blend default_config 200 128 = 0) /\
  (128 = 255 -> Blend default_config 200 128 = 200).
Proof.
  apply (BlendOnBlack_range default_config 200 128);
    [reflexivity | unfold is_uint8; lia | unfold is_uint8; lia].
Defined.

Lemma BlendOnWhite_endpoints_witness :
  Blend (on_white default_config) 200 0 = 255 /\
  Blend (on_white default_config) 200 255 = 200.
Proof.
  apply (BlendOnWhite_endpoints (on_white default_config) 200);
    [reflexivity | unfold is_uint8; lia].
Defined.

(** C1, as stated, fails: with sample 100 and alpha 128 the source returns
    the sample, 100, where the formula gives 205. *)
Lemma BlendOnWhite_formula_counterexample :
  is_uint8 100 /\ 0 < 128 < 255 /\
  Blend (on_white default_config) 100 128 <> 255 - ((100 * 128 + 128) / 255).
Proof.
  split; [unfold is_uint8; lia |]. split; [lia |].
  vm_compute. discriminate.
Qed.

Lemma BlendOnWhite_partial_alpha_witness :
  Blend (on_white default_config) 100 128 = 100.
Proof.
  apply (BlendOnWhite_partial_alpha (on_white default_config) 100 128);
    [reflexivity | unfold is_uint8; lia | lia].
Defined.

Lemma admission_gate_witness :
  MemlimitExceeded default_config 10000 10000 = true <->
  (inject_Z (memlimit_mb default_config) < spec_estimated_mb 10000 10000)%Q \/
  memlimit_mb default_config < kLowestMemusageMB.
Proof.
  apply (admission_gate sample_png_read_png sample_TIFFClientOpen
           sample_TIFF_BIGENDIAN sample_TIFF_LITTLEENDIAN 0 sample_ReadJpeg
           sample_encoder_rgb sample_encoder_jpeg default_config 10000 10000).
  - unfold is_int, INT_MIN, INT_MAX. lia.
  - unfold is_int, INT_MIN, INT_MAX. lia.
  - change (memlimit_mb default_config) with 6000.
    unfold is_int, INT_MIN, INT_MAX. lia.
  - change (memlimit_mb default_config) with 6000. lia.
Defined.

Lemma nomemlimit_admits_witness :
  MemlimitExceeded (with_memlimit default_config (-1)) 10000 10000 = false.
Proof.
  apply (nomemlimit_admits sample_png_read_png sample_TIFFClientOpen
           sample_TIFF_BIGENDIAN sample_TIFF_LITTLEENDIAN 0 sample_ReadJpeg
           sample_encoder_rgb sample_encoder_jpeg
           (with_memlimit default_config (-1)) 10000 10000).
  reflexivity.
Defined.

Lemma png_signature_dispatch_witness :
  main_state sample_png_read_png sample_TIFFClientOpen
    sample_TIFF_BIGENDIAN sample_TIFF_LITTLEENDIAN 0 sample_ReadJpeg
    sample_encoder_rgb sample_encoder_jpeg default_config broken_png_file =
  Ret (mkMainState false [] [(pngProcessor, ProcessFailed)]).
Proof.
  apply (png_signature_dispatch sample_png_read_png sample_TIFFClientOpen
           sample_TIFF_BIGENDIAN sample_TIFF_LITTLEENDIAN 0 sample_ReadJpeg
           sample_encoder_rgb sample_encoder_jpeg default_config
           broken_png_file).
  - simpl. lia.
  - reflexivity.
  - reflexivity.
Defined.

Lemma unknown_format_dispatch_witness :
  main_state sample_png_read_png sample_TIFFClientOpen
    sample_TIFF_BIGENDIAN sample_TIFF_LITTLEENDIAN 0 sample_ReadJpeg
    sample_encoder_rgb sample_encoder_jpeg default_config zero_buffer =
  Ret (mkMainState false []
         [(pngProcessor, NotSupported); (tiffProcessor, NotSupported);
          (jpegProcessor, NotSupported)]) /\
  main sample_png_read_png sample_TIFFClientOpen
    sample_TIFF_BIGENDIAN sample_TIFF_LITTLEENDIAN 0 sample_ReadJpeg
    sample_encoder_rgb sample_encoder_jpeg default_config zero_buffer =
  Ret UnknownFileFormat.
Proof.
  destruct (unknown_format_dispatch sample_png_read_png sample_TIFFClientOpen
              sample_TIFF_BIGENDIAN sample_TIFF_LITTLEENDIAN 0 sample_ReadJpeg
              sample_encoder_rgb sample_encoder_jpeg default_config
              zero_buffer) as (_ & _ & _ & Hst & Hmain & _).
  - intros [_ H]. discriminate H.
  - intros [_ [H|H]]; discriminate H.
  - reflexivity.
  - split; [exact Hst|exact Hmain].
Defined.

Lemma ReadPNG_channels_witness :
  exists pixels,
    ReadPNG sample_png_read_png default_config sample_png_file =
    Ret (Some (mkImage 2 1 pixels)) /\
    forall x y k,
      0 <= x < 2 -> 0 <= y < 1 -> 0 <= k < 3 ->
      pixels !! Z.to_nat (3 * (y * 2 + x) + k) =
      spec_png_pixel default_config 4
        (default [] ([sample_rgba_row] !! Z.to_nat y)) x !! Z.to_nat k.
Proof.
  apply (ReadPNG_channels sample_png_read_png default_config
           sample_png_file sample_png_info).
  - reflexivity.
  - simpl. lia.
  - simpl. lia.
  - unfold INT_MAX. simpl. lia.
  - unfold INT_MAX. simpl. lia.
  - simpl. lia.
Defined.

Lemma decoded_buffer_length_witness :
  Z.of_nat (length (rgb sample_decoded)) =
  3 * xsize sample_decoded * ysize sample_decoded /\
  Z.of_nat (length (rgb sample_tiff_decoded)) =
  3 * xsize sample_tiff_decoded * ysize sample_tiff_decoded.
Proof.
  split.
  - apply (decoded_buffer_length sample_png_read_png sample_TIFFClientOpen 0
             default_config sample_png_file sample_decoded).
    left. vm_compute. reflexivity.
  - apply (decoded_buffer_length sample_png_read_png sample_TIFFClientOpen 0
             default_config sample_tiff_file sample_tiff_decoded).
    right. vm_compute. reflexivity.
Defined.

(** C2: on a 2x1 TIFF with 4 samples per pixel the first pixel
    (200, 100, 50, alpha 0) comes out as (8, 4, 2): [ReadTIFF] blends it
    with [pixel[4]], the red byte 10 of the next pixel, where its own
    alpha, [pixel[3]] = 0, gives (0, 0, 0); the last pixel is blended with
    the byte that follows the raster. *)
Lemma ReadTIFF_alpha_index (past : Z) :
  ReadTIFF sample_TIFFClientOpen past default_config sample_tiff_file =
  Ret (Some (mkImage 2 1
               [Blend default_config 200 10; Blend default_config 100 10;
                Blend default_config 50 10;
                Blend default_config 10 past; Blend default_config 20 past;
                Blend default_config 30 past])) /\
  [Blend default_config 200 10; Blend default_config 100 10;
   Blend default_config 50 10] = [8; 4; 2] /\
  [Blend default_config 200 0; Blend default_config 100 0;
   Blend default_config 50 0] = [0; 0; 0].
Proof.
  split; [|split]; vm_compute; reflexivity.
Qed.

(** ** Concrete runs of the file shim, the dispatch and the command line *)

Lemma tiff_Read_clamped_witness :
  (0 <= 6 ->
   exists io' buf,
     tiff_Read (tiff_io_open sample_tiff_file) 6 =
     Ret (io', buf, Z.min 6 (4 - 0)) /\
     buf = take (Z.to_nat 6) (drop (Z.to_nat 0) sample_tiff_file) /\
     Z.of_nat (length buf) = Z.min 6 (4 - 0) /\
     io_data io' = sample_tiff_file /\
     io_fp io' = 0 + Z.min 6 (4 - 0) /\
     io_wf io') /\
  (6 < 0 -> tiff_Read (tiff_io_open sample_tiff_file) 6 = Crash).
Proof.
  apply (tiff_Read_clamped (tiff_io_open sample_tiff_file) 6).
  unfold io_wf. simpl. lia.
Defined.

Lemma tiff_Read_twice_witness :
  tiff_Read (tiff_io_open sample_tiff_file) (1 + 2) =
  Ret (mkTiffIo sample_tiff_file 4 3, [73] ++ [73; 42], 1 + 2).
Proof.
  apply (tiff_Read_twice (tiff_io_open sample_tiff_file)
           (mkTiffIo sample_tiff_file 4 1) (mkTiffIo sample_tiff_file 4 3)
           1 2 1 2 [73] [73; 42]).
  - unfold io_wf. simpl. lia.
  - lia.
  - lia.
  - vm_compute. reflexivity.
  - vm_compute. reflexivity.
Defined.

Lemma tiff_Seek_then_Read_witness :
  exists io1 io2,
    tiff_Seek 64 (tiff_io_open sample_tiff_file) 1 SEEK_END = Ret (io1, 3) /\
    io_wf io1 /\
    tiff_Read io1 5 =
    Ret (io2, take (Z.to_nat 5) (drop (Z.to_nat 3) sample_tiff_file),
         Z.min 5 (4 - 3)) /\
    io_wf io2.
Proof.
  apply (tiff_Seek_then_Read 64 (tiff_io_open sample_tiff_file) 1 SEEK_END 3 5).
  - unfold io_wf. simpl. lia.
  - simpl. lia.
  - right. right. split; reflexivity.
  - simpl. lia.
  - lia.
Defined.

Lemma ReadTIFF_copy_pixels_witness :
  exists v,
    ReadTIFF sample_TIFFClientOpen_rgb 0 default_config sample_tiff_file =
    Ret (Some (mkImage 2 1 v)) /\
    Z.of_nat (length v) = 3 * 2 * 1 /\
    forall p k,
      0 <= p < 2 * 1 -> 0 <= k < 3 ->
      v !! Z.to_nat (3 * p + k) = sample_rgb_raster !! Z.to_nat (4 * p + k).
Proof.
  apply (ReadTIFF_copy_pixels sample_TIFFClientOpen_rgb 0 default_config
           sample_tiff_file sample_tiff_info_rgb sample_rgb_raster).
  - reflexivity.
  - reflexivity.
  - simpl. lia.
  - simpl. lia.
  - simpl. lia.
  - unfold INT_MAX. simpl. lia.
  - reflexivity.
Defined.

Lemma tiff_signature_dispatch_witness :
  main_state sample_png_read_png sample_TIFFClientOpen
    sample_TIFF_BIGENDIAN sample_TIFF_LITTLEENDIAN 0 sample_ReadJpeg
    sample_encoder_rgb sample_encoder_jpeg default_config sample_tiff_file =
  Ret (mkMainState true [255; 216; 255; 217]
         [(pngProcessor, NotSupported); (tiffProcessor, Sucess)]).
Proof.
  destruct (tiff_signature_dispatch sample_png_read_png sample_TIFFClientOpen
              sample_TIFF_BIGENDIAN sample_TIFF_LITTLEENDIAN 0 sample_ReadJpeg
              sample_encoder_rgb sample_encoder_jpeg default_config
              sample_tiff_file) as [H _].
  - reflexivity.
  - reflexivity.
  - apply (H Sucess [255; 216; 255; 217]). vm_compute. reflexivity.
Defined.

Lemma jpeg_fallback_dispatch_witness :
  exists r out,
    JpegProcessor_Process sample_ReadJpeg sample_encoder_jpeg default_config
      sample_jpeg_file [] = Ret (r, out) /\
    main_state sample_png_read_png sample_TIFFClientOpen
      sample_TIFF_BIGENDIAN sample_TIFF_LITTLEENDIAN 0 sample_ReadJpeg
      sample_encoder_rgb sample_encoder_jpeg default_config sample_jpeg_file =
    Ret (mkMainState (ProcessResult_eqb r Sucess) out
           [(pngProcessor, NotSupported); (tiffProcessor, NotSupported);
            (jpegProcessor, r)]) /\
    main sample_png_read_png sample_TIFFClientOpen
      sample_TIFF_BIGENDIAN sample_TIFF_LITTLEENDIAN 0 sample_ReadJpeg
      sample_encoder_rgb sample_encoder_jpeg default_config sample_jpeg_file =
    Ret (if ProcessResult_eqb r Sucess then WroteOutput out
         else UnknownFileFormat).
Proof.
  apply (jpeg_fallback_dispatch sample_png_read_png sample_TIFFClientOpen
           sample_TIFF_BIGENDIAN sample_TIFF_LITTLEENDIAN 0 sample_ReadJpeg
           sample_encoder_rgb sample_encoder_jpeg default_config
           sample_jpeg_file).
  - reflexivity.
  - reflexivity.
Defined.

Lemma low_memlimit_never_writes_witness :
  memlimit_mb (with_memlimit default_config 50) < kLowestMemusageMB /\
  main sample_png_read_png sample_TIFFClientOpen
    sample_TIFF_BIGENDIAN sample_TIFF_LITTLEENDIAN 0 sample_ReadJpeg
    sample_encoder_rgb sample_encoder_jpeg (with_memlimit default_config 50)
    sample_png_file <> Ret (WroteOutput [255; 216; 255; 217]).
Proof.
  split; [vm_compute; reflexivity|].
  apply (low_memlimit_never_writes sample_png_read_png sample_TIFFClientOpen
           sample_TIFF_BIGENDIAN sample_TIFF_LITTLEENDIAN 0 sample_ReadJpeg
           sample_encoder_rgb sample_encoder_jpeg
           (with_memlimit default_config 50) sample_png_file
           [255; 216; 255; 217]).
  - simpl. lia.
  - vm_compute. reflexivity.
Defined.

Lemma MemlimitExceeded_monotone_witness :
  MemlimitExceeded default_config 10000 10000 = true /\
  MemlimitExceeded (with_memlimit default_config 3000) 20000 20000 = true.
Proof.
  split; [vm_compute; reflexivity|].
  apply (MemlimitExceeded_monotone default_config
           (with_memlimit default_config 3000) 10000 10000 20000 20000).
  - lia.
  - lia.
  - unfold is_int, INT_MIN, INT_MAX. lia.
  - unfold is_int, INT_MIN, INT_MAX. lia.
  - change (memlimit_mb default_config) with 6000.
    unfold is_int, INT_MIN, INT_MAX. lia.
  - unfold is_int, INT_MIN, INT_MAX. simpl. lia.
  - simpl. lia.
  - change (memlimit_mb default_config) with 6000. simpl. lia.
  - vm_compute. reflexivity.
Defined.

Lemma default_memlimit_pixels_witness :
  MemlimitExceeded default_config 7000 8000 = false <->
  7000 * 8000 <= 57195054.
Proof.
  apply (default_memlimit_pixels default_config 7000 8000).
  - reflexivity.
  - unfold is_int, INT_MIN, INT_MAX. lia.
  - unfold is_int, INT_MIN, INT_MAX. lia.
Defined.

Lemma oversized_image_overflows_witness :
  ReadPNG sample_png_read_png_huge default_config sample_png_file = Crash /\
  main sample_png_read_png_huge sample_TIFFClientOpen
    sample_TIFF_BIGENDIAN sample_TIFF_LITTLEENDIAN 0 sample_ReadJpeg
    sample_encoder_rgb sample_encoder_jpeg default_config sample_png_file =
  Crash.
Proof.
  destruct (oversized_image_overflows sample_png_read_png_huge
              sample_TIFFClientOpen sample_TIFF_BIGENDIAN
              sample_TIFF_LITTLEENDIAN 0 sample_ReadJpeg sample_encoder_rgb
              sample_encoder_jpeg default_config sample_png_file
              30000 30000) as [H _].
  - unfold INT_MAX. lia.
  - unfold INT_MAX. lia.
  - unfold INT_MAX. lia.
  - apply (H sample_huge_png_info); reflexivity.
Defined.

Lemma BlendOnBlack_monotone_rounding_witness :
  BlendOnBlack 100 128 <= BlendOnBlack 200 200 /\
  100 * 128 - 126 <= 255 * BlendOnBlack 100 128 <= 100 * 128 + 128 /\
  BlendOnBlack 127 1 = 1.
Proof.
  apply (BlendOnBlack_monotone_rounding 100 200 128 200);
    unfold is_uint8; lia.
Defined.

Lemma main_arguments_mode_witness :
  g_mathMode sample_parsed_globals <> 6 /\
  (g_mathMode sample_parsed_globals = g_mathMode sample_globals \/
   g_mathMode sample_parsed_globals = 1 \/
   true = true /\
     (g_mathMode sample_parsed_globals = 2 \/
      g_mathMode sample_parsed_globals = 3) \/
   true = true /\
     (g_mathMode sample_parsed_globals = 4 \/
      g_mathMode sample_parsed_globals = 5)) /\
  (true = false ->
   forall rest,
     main_arguments sample_atoi true true 1 2 3 4 5 6 (Some false) (Some true)
       ("--auto"%string :: rest) sample_globals = None).
Proof.
  apply (main_arguments_mode sample_atoi true true 1 2 3 4 5 6
           (Some false) (Some true) sample_args sample_globals
           sample_parsed_globals "in.png" "out.jpg").
  - lia.
  - lia.
  - lia.
  - vm_compute. reflexivity.
Defined.

Lemma settings_change_only_by_their_option_witness :
  (verbose (g_cfg sample_parsed_globals) = verbose (g_cfg sample_globals) \/
   In "--verbose"%string sample_args /\
   verbose (g_cfg sample_parsed_globals) = 1) /\
  (quality (g_cfg sample_parsed_globals) = quality (g_cfg sample_globals) \/
   In "--quality"%string sample_args /\
   exists v, In v sample_args /\
             quality (g_cfg sample_parsed_globals) = sample_atoi v) /\
  (memlimit_mb (g_cfg sample_parsed_globals) =
   memlimit_mb (g_cfg sample_globals) \/
   (In "--memlimit"%string sample_args /\
    exists v, In v sample_args /\
              memlimit_mb (g_cfg sample_parsed_globals) = sample_atoi v) \/
   In "--nomemlimit"%string sample_args /\
   memlimit_mb (g_cfg sample_parsed_globals) = -1) /\
  (blendOnBlack (g_cfg sample_parsed_globals) =
   blendOnBlack (g_cfg sample_globals) \/
   In "--blend-on-white"%string sample_args /\
   blendOnBlack (g_cfg sample_parsed_globals) = false).
Proof.
  apply (settings_change_only_by_their_option sample_atoi true true
           1 2 3 4 5 6 (Some false) (Some true) sample_args sample_globals
           sample_parsed_globals "in.png" "out.jpg").
  vm_compute. reflexivity.
Defined.

(** X16: the blend mode matters only for images with alpha: a PNG with
    1 or 3 channels and a TIFF whose SamplesPerPixel is not 4 decode to
    the same result, be it an image, a failure or undefined behaviour,
    under any two configurations. *)
Theorem blend_mode_needs_alpha
    (png_read_png : list Z -> option png_info)
    (TIFFClientOpen : list Z -> option tiff_info) (past_raster : Z)
    (conf conf' : Config) (data : list Z) :
  (forall info,
     png_read_png data = Some info ->
     png_get_channels info = 1 \/ png_get_channels info = 3 ->
     ReadPNG png_read_png conf data = ReadPNG png_read_png conf' data) /\
  (forall tif,
     TIFFClientOpen data = Some tif -> tiff_SamplesPerPixel tif <> 4 ->
     ReadTIFF TIFFClientOpen past_raster conf data =
     ReadTIFF TIFFClientOpen past_raster conf' data).
Proof.
  split.
  - intros info Hread Hc. unfold ReadPNG. rewrite Hread.
    destruct Hc as [-> | ->]; reflexivity.
  - intros tif Hopen Hspp. unfold ReadTIFF. rewrite Hopen. cbv zeta.
    destruct (Z.eqb_spec (tiff_SamplesPerPixel tif) 4) as [|_];
      [contradiction|reflexivity].
Qed.
